(** * The desktop shell of the task manager

    A shallow embedding of the logic of [src/electron.js] and
    [src/scripts/sign.js], and the properties proved of it.

    - [Shell] : the server address, the address of the update feed, the
      icon path and the signing hook; their properties are in
      [ShellProps].
    - [Storage] : the handlers that keep the token and the user in the
      persistent store; their properties are in [StorageProps].
    - [Dedup] : the de-duplication of notifications, which is the
      module-level [recentNotifications] map, the constant
      [DEDUP_WINDOW_MS], the function [isDuplicateNotification] and the
      two handlers that call it, with their properties.

    Each module states its modelling conventions. *)

From stdpp Require Import gmap strings list fin_maps pretty.
From Stdlib Require Import ZArith.

(** * Configuration read by the shell

    [getServerURL] and [getIconPath] of [src/electron.js], the address of
    the update feed that the same file derives from [SERVER_URL], and the
    signing hook of [src/scripts/sign.js].

    Conventions.
    - [process.env] is a finite map from names to strings; a variable that
      is not set reads as [undefined]. A test [if (process.env.X)] and a
      default [process.env.X || d] take the value only when it is set and
      not the empty string.
    - A string is its sequence of bytes. The source inspects strings only
      through the ASCII patterns ['/'], ["http://"] and ["https://"], at
      the start or at the end, which reads the same on bytes as on
      JavaScript's code units.
    - [String.prototype.trim], [path.join], [path.resolve] and
      [fs.existsSync] belong to the host. They are parameters, and nothing
      is assumed about them. *)

Module Shell.

Local Open Scope string_scope.

(** A value of [process.env] as a condition sees it: [None] for a variable
    that is not set and for one set to the empty string. *)
Definition env_truthy (env : gmap string string) (name : string)
    : option string :=
  match env !! name with
  | Some value => if bool_decide (value = EmptyString) then None else Some value
  | None => None
  end.

(** [s.slice(-1)] : the last character of a string, as a string; empty
    for the empty string. *)
Fixpoint slice_last (s : string) : string :=
  match s with
  | EmptyString => EmptyString
  | String c rest =>
      match rest with
      | EmptyString => String c EmptyString
      | String _ _ => slice_last rest
      end
  end.

(** [s.endsWith('/')] *)
Definition endsWith_slash (s : string) : bool :=
  bool_decide (slice_last s = "/").

(** [s.slice(0, -1)] : the string without its last character. *)
Fixpoint slice_off_last (s : string) : string :=
  match s with
  | EmptyString => EmptyString
  | String c rest =>
      match rest with
      | EmptyString => EmptyString
      | String _ _ => String c (slice_off_last rest)
      end
  end.

(** [s.slice(n)] : the string without its first [n] characters. *)
Fixpoint slice_from (n : nat) (s : string) : string :=
  match n, s with
  | S n', String _ rest => slice_from n' rest
  | _, _ => s
  end.

(** [s.startsWith(p)] *)
Definition startsWith (p s : string) : bool := String.prefix p s.

(** [domain.replace(/^https?:\/\//, '')] : one scheme at the start of the
    string is removed. *)
Definition strip_scheme (domain : string) : string :=
  if startsWith "https://" domain then slice_from 8 domain
  else if startsWith "http://" domain then slice_from 7 domain
  else domain.

(** [function getServerURL()] *)
Definition getServerURL (trim : string → string) (env : gmap string string)
    : string :=
  match env_truthy env "ELECTRON_SERVER_URL" with
  | Some value =>
      let url := trim value in
      if endsWith_slash url then url else url ++ "/"
  | None =>
      match env_truthy env "ELECTRON_SERVER_DOMAIN" with
      | Some value =>
          let domain := trim value in
          let protocol :=
            default "https" (env_truthy env "ELECTRON_SERVER_PROTOCOL") in
          let cleanDomain := strip_scheme domain in
          protocol ++ "://" ++ cleanDomain ++ "/"
      | None =>
          let serverIP :=
            default "192.168.90.177" (env_truthy env "ELECTRON_SERVER_IP") in
          let port := default "5000" (env_truthy env "ELECTRON_SERVER_PORT") in
          let protocol :=
            default "http" (env_truthy env "ELECTRON_SERVER_PROTOCOL") in
          protocol ++ "://" ++ serverIP ++ ":" ++ port ++ "/"
      end
  end.

(** The address given to [autoUpdater.setFeedURL]:
    [baseUrl = SERVER_URL.endsWith('/') ? SERVER_URL.slice(0, -1) : SERVER_URL]
    and [updateUrl = `${baseUrl}/desktop/updates`]. *)
Definition updateUrl (SERVER_URL : string) : string :=
  let baseUrl :=
    if endsWith_slash SERVER_URL then slice_off_last SERVER_URL
    else SERVER_URL in
  baseUrl ++ "/desktop/updates".

(** [!updateUrl.startsWith('https://')] : the condition of the warning
    that the update feed is not served over HTTPS. *)
Definition updater_warns (SERVER_URL : string) : bool :=
  negb (startsWith "https://" (updateUrl SERVER_URL)).

(** The candidates of [getIconPath], in the order of the source. *)
Definition possiblePaths (join : list string → string) (dirname : string)
    : list string :=
  [ join [dirname; "icon.png"];
    join [dirname; "icon.ico"];
    join [dirname; ".."; "public"; "favicon.ico"];
    join [dirname; ".."; "build"; "favicon.ico"] ].

(** [for (const iconPath of possiblePaths)
       if (fs.existsSync(iconPath)) return iconPath;
     return null;] *)
Fixpoint first_existing (existsSync : string → bool) (paths : list string)
    : option string :=
  match paths with
  | [] => None
  | iconPath :: rest =>
      if existsSync iconPath then Some iconPath
      else first_existing existsSync rest
  end.

(** [function getIconPath()] *)
Definition getIconPath (existsSync : string → bool)
    (join : list string → string) (dirname : string) : option string :=
  first_existing existsSync (possiblePaths join dirname).

(** What the signing hook hands to the builder. *)
Record signing := {
  certificateFile : string;
  certificatePassword : string
}.

(** The function exported by [src/scripts/sign.js]. [None] is its
    [return;], which leaves the application unsigned. *)
Definition sign (resolve : string → string) (existsSync : string → bool)
    (env : gmap string string) : option signing :=
  match env_truthy env "WIN_CERTIFICATE_FILE",
        env_truthy env "WIN_CERTIFICATE_PASSWORD" with
  | Some file, Some password =>
      let certPath := resolve file in
      if existsSync certPath
      then Some {| certificateFile := certPath;
                   certificatePassword := password |}
      else None
  | _, _ => None
  end.

(** A [trim] for running examples: it removes the spaces at both ends. *)
Fixpoint trim_start_spaces (s : string) : string :=
  match s with
  | String c rest =>
      if bool_decide (String c EmptyString = " ")
      then trim_start_spaces rest else s
  | EmptyString => EmptyString
  end.

Definition trim_spaces (s : string) : string :=
  String.rev (trim_start_spaces (String.rev (trim_start_spaces s))).

End Shell.

(** * Persistent storage of the token and the user

    The handlers [save-token], [get-token], [save-user], [get-user] and
    [clear-storage] that [src/electron.js] registers with [ipcMain].

    Conventions.
    - The values that cross the channel are [undefined], [null], booleans,
      integral numbers, strings, and objects, of which the handlers read
      the members [token], [workspaceId] and [workspaceSlug]. A member
      that an object does not have reads as [undefined].
    - [store] is the [electron-store] instance, or [null] when the package
      could not be loaded. It is a map from keys to values, created with
      the [defaults] of the source. [store.get] of a key that is not there
      is [undefined]; [store.set] of [undefined] throws and of any other
      value writes it; [store.clear] puts the store back to its defaults.
      Failures of the file system are left out.
    - A handler body is a computation on the store that may throw; the
      store is then as the statements before the throw left it. *)

Module Storage.

Local Open Scope string_scope.

Inductive scalar :=
  | SUndefined
  | SNull
  | SBool (b : bool)
  | SNum (n : Z)
  | SStr (s : string).

Record object := {
  o_token : scalar;
  o_workspaceId : scalar;
  o_workspaceSlug : scalar;
  o_rest : list (string * scalar)
}.

Inductive value :=
  | Scalar (v : scalar)
  | Object (o : object).

#[global] Instance scalar_eq_dec : EqDecision scalar.
Proof. solve_decision. Defined.

#[global] Instance object_eq_dec : EqDecision object.
Proof. solve_decision. Defined.

#[global] Instance value_eq_dec : EqDecision value.
Proof. solve_decision. Defined.

(** Truthiness of a value in a condition. *)
Definition truthy_scalar (v : scalar) : bool :=
  match v with
  | SUndefined | SNull => false
  | SBool b => b
  | SNum n => negb (n =? 0)%Z
  | SStr s => negb (bool_decide (s = EmptyString))
  end.

Definition truthy (v : value) : bool :=
  match v with
  | Scalar v => truthy_scalar v
  | Object _ => true
  end.

(** [a || b] *)
Definition js_or (a b : value) : value := if truthy a then a else b.

(** A computation on the store: its result, or [None] when it threw, and
    the store afterwards. *)
Definition action (A : Type) : Type :=
  gmap string value → option A * gmap string value.

Definition ret {A : Type} (a : A) : action A := λ s, (Some a, s).

Definition throw {A : Type} : action A := λ s, (None, s).

Definition bind {A B : Type} (c : action A) (k : A → action B) : action B :=
  λ s, match c s with
       | (Some a, s') => k a s'
       | (None, s') => (None, s')
       end.

Notation "'let*' x := c 'in' k" := (bind c (λ x, k))
  (at level 10, x name, c at level 100, k at level 200).

Notation "c ;; k" := (bind c (λ _, k))
  (at level 100, k at level 200, right associativity).

(** The [defaults] given to [new Store]. *)
Definition defaults : gmap string value :=
  {[ "token" := Scalar SNull;
     "accessToken" := Scalar SNull;
     "user" := Scalar SNull;
     "workspaceId" := Scalar SNull;
     "workspaceSlug" := Scalar SNull ]}.

(** [store.get(key)] *)
Definition store_get (key : string) : action value :=
  λ s, (Some (default (Scalar SUndefined) (s !! key)), s).

(** [store.set(key, v)] *)
Definition store_set (key : string) (v : value) : action unit :=
  match v with
  | Scalar SUndefined => throw
  | _ => λ s, (Some (), <[key := v]> s)
  end.

(** [store.clear()] *)
Definition store_clear : action unit := λ _, (Some (), defaults).

(** [v.member] : reading a member of [undefined] or [null] throws, a
    member of another primitive value is [undefined]. *)
Definition member (v : value) (read : object → scalar) : action scalar :=
  match v with
  | Scalar SUndefined | Scalar SNull => throw
  | Scalar _ => ret SUndefined
  | Object o => ret (read o)
  end.

(** [if (c) { body }] *)
Definition when (c : bool) (body : action unit) : action unit :=
  if c then body else ret ().

(** The [error] member of a reply: ["Store not available"], or the message
    of what was thrown. *)
Inductive failure := StoreNotAvailable | Thrown.

(** [{ success: true }] and [{ success: false, error }]. *)
Inductive outcome := Success | Failure (error : failure).

(** [{ success, token }] and [{ success, user }]. *)
Record reply := { success : bool; content : value }.

(** The shape of every handler:
    [try { if (store) { body } else { return unavailable } }
     catch (error) { return failed }]. *)
Definition handle {A : Type} (body : action A) (unavailable failed : A)
    (store : option (gmap string value)) : A * option (gmap string value) :=
  match store with
  | None => (unavailable, None)
  | Some s =>
      match body s with
      | (Some a, s') => (a, Some s')
      | (None, s') => (failed, Some s')
      end
  end.

(** [ipcMain.handle("save-token", (event, token) => ...)] *)
Definition save_token (token : value) :=
  handle
    (store_set "token" token ;;
     store_set "accessToken" token ;;
     ret Success)
    (Failure StoreNotAvailable) (Failure Thrown).

(** [ipcMain.handle("get-token", () => ...)] *)
Definition get_token :=
  handle
    (let* token := store_get "token" in
     let* accessToken := store_get "accessToken" in
     ret {| success := true; content := js_or token accessToken |})
    {| success := false; content := Scalar SNull |}
    {| success := false; content := Scalar SNull |}.

(** [ipcMain.handle("save-user", (event, userData) => ...)] *)
Definition save_user (userData : value) :=
  handle
    (store_set "user" userData ;;
     let* token := member userData o_token in
     when (truthy_scalar token)
       (store_set "token" (Scalar token) ;;
        store_set "accessToken" (Scalar token)) ;;
     let* workspaceId := member userData o_workspaceId in
     when (truthy_scalar workspaceId)
       (store_set "workspaceId" (Scalar workspaceId)) ;;
     let* workspaceSlug := member userData o_workspaceSlug in
     when (truthy_scalar workspaceSlug)
       (store_set "workspaceSlug" (Scalar workspaceSlug)) ;;
     ret Success)
    (Failure StoreNotAvailable) (Failure Thrown).

(** [ipcMain.handle("get-user", () => ...)] *)
Definition get_user :=
  handle
    (let* user := store_get "user" in
     ret {| success := true; content := user |})
    {| success := false; content := Scalar SNull |}
    {| success := false; content := Scalar SNull |}.

(** [ipcMain.handle("clear-storage", () => ...)] *)
Definition clear_storage :=
  handle (store_clear ;; ret Success)
    (Failure StoreNotAvailable) (Failure Thrown).

(** The store after [save-user] of an object. *)
Definition saved_user (o : object) (s : gmap string value)
    : gmap string value :=
  let s1 := <["user" := Object o]> s in
  let s2 :=
    if truthy_scalar (o_token o)
    then <["accessToken" := Scalar (o_token o)]>
           (<["token" := Scalar (o_token o)]> s1)
    else s1 in
  let s3 :=
    if truthy_scalar (o_workspaceId o)
    then <["workspaceId" := Scalar (o_workspaceId o)]> s2 else s2 in
  if truthy_scalar (o_workspaceSlug o)
  then <["workspaceSlug" := Scalar (o_workspaceSlug o)]> s3 else s3.

(** The requests of the renderer and the store after serving them. *)
Inductive request :=
  | SaveToken (token : value)
  | GetToken
  | SaveUser (userData : value)
  | GetUser
  | ClearStorage.

Definition serve (r : request) (store : option (gmap string value))
    : option (gmap string value) :=
  match r with
  | SaveToken token => (save_token token store).2
  | GetToken => (get_token store).2
  | SaveUser userData => (save_user userData store).2
  | GetUser => (get_user store).2
  | ClearStorage => (clear_storage store).2
  end.

Definition serve_all (requests : list request)
    (store : option (gmap string value)) : option (gmap string value) :=
  foldl (λ st r, serve r st) store requests.

(** The two keys under which the token is kept hold the same. *)
Definition slots_agree (store : option (gmap string value)) : Prop :=
  ∀ s, store = Some s → s !! "token" = s !! "accessToken".

End Storage.

(** * Notification de-duplication

    Conventions.
    - [recentNotifications] is a JavaScript [Map] from tags to timestamps.
      It is a module-level variable that the function mutates, so the
      embedding threads it explicitly: the function takes the map before
      the call and returns the map after it, next to its boolean result.
    - [Date.now()] is the only other input of the function. It is read
      exactly once per call, so it is a parameter [now] of the embedding.
      It is an integral number of milliseconds, modelled as [Z].
    - The argument [tag] is either [undefined] ([None]) or a string.
    - JavaScript truthiness is written out: [!tag] holds for [undefined]
      and for the empty string, and [lastShown && ...] is falsy when
      [lastShown] is [undefined] and also when it is the number [0]. *)

Module Dedup.

Local Open Scope string_scope.

(** ** The source, embedded *)

(** [const DEDUP_WINDOW_MS = 2000;] *)
Definition DEDUP_WINDOW_MS : Z := 2000.

(** The size threshold [recentNotifications.size > 100]. *)
Definition CLEANUP_THRESHOLD : nat := 100.

(** [!tag] : the argument is [undefined] or the empty string. *)
Definition falsy_tag (tag : option string) : bool :=
  match tag with
  | None => true
  | Some key => bool_decide (key = EmptyString)
  end.

(** [lastShown && (now - lastShown) < DEDUP_WINDOW_MS], where
    [lastShown] is what [recentNotifications.get(tag)] returned. The left
    operand is a truthiness test: [undefined] is falsy, and so is the
    number [0]. *)
Definition within_window (lastShown : option Z) (now : Z) : bool :=
  match lastShown with
  | None => false
  | Some ts => negb (ts =? 0)%Z && (now - ts <? DEDUP_WINDOW_MS)%Z
  end.

(** The body of the loop
    [for (const [key, timestamp] of recentNotifications.entries())
       if (timestamp < cutoff) recentNotifications.delete(key);] *)
Definition cleanup_step (cutoff : Z) (key : string) (timestamp : Z)
    (acc : gmap string Z) : gmap string Z :=
  if (timestamp <? cutoff)%Z then delete key acc else acc.

(** The whole loop: every entry of the map is visited once, and the
    visited entry is deleted from the map when it is stale. Only the entry
    being visited is ever deleted, so no entry is skipped. A JavaScript
    [Map] is visited in insertion order and [map_fold] in the order of the
    [gmap]; [cleanup_filter] below shows that the order does not matter. *)
Definition cleanup (cutoff : Z) (recentNotifications : gmap string Z)
    : gmap string Z :=
  map_fold (cleanup_step cutoff) recentNotifications recentNotifications.

(** [recentNotifications.size > 100] *)
Definition needs_cleanup (recentNotifications : gmap string Z) : bool :=
  bool_decide (CLEANUP_THRESHOLD < size recentNotifications).

(** The acceptance path: [recentNotifications.set(tag, now)] followed by
    the guarded cleanup with [cutoff = now - DEDUP_WINDOW_MS * 2]. *)
Definition record_shown (key : string) (now : Z)
    (recentNotifications : gmap string Z) : gmap string Z :=
  let written := <[key := now]> recentNotifications in
  if needs_cleanup written
  then cleanup (now - DEDUP_WINDOW_MS * 2) written
  else written.

(** [function isDuplicateNotification(tag)], with the clock reading and
    the map made explicit. The result is the returned boolean ([true] is
    "duplicate") and the map after the call. *)
Definition isDuplicateNotification (tag : option string) (now : Z)
    (recentNotifications : gmap string Z) : bool * gmap string Z :=
  match tag with
  | None => (false, recentNotifications)
  | Some key =>
      if bool_decide (key = EmptyString) then (false, recentNotifications)
      else
        let lastShown := recentNotifications !! key in
        if within_window lastShown now then (true, recentNotifications)
        else (false, record_shown key now recentNotifications)
  end.

(** Whether a call enters the cleanup loop: it is on the acceptance path
    and the map is larger than the threshold after the write. *)
Definition cleanup_runs (tag : option string) (now : Z)
    (recentNotifications : gmap string Z) : bool :=
  match tag with
  | None => false
  | Some key =>
      negb (bool_decide (key = EmptyString))
      && negb (within_window (recentNotifications !! key) now)
      && needs_cleanup (<[key := now]> recentNotifications)
  end.

(** A call is a tag together with the clock reading of that call. *)
Abbreviation call := (option string * Z)%type.

(** The results of a sequence of calls and the map after the last one. *)
Fixpoint run (calls : list call) (recentNotifications : gmap string Z)
    : list bool * gmap string Z :=
  match calls with
  | [] => ([], recentNotifications)
  | (tag, now) :: rest =>
      let r := isDuplicateNotification tag now recentNotifications in
      let rs := run rest r.2 in
      (r.1 :: rs.1, rs.2)
  end.

(** The number of calls of a sequence that enter the cleanup loop. *)
Fixpoint cleanups (calls : list call) (recentNotifications : gmap string Z)
    : nat :=
  match calls with
  | [] => 0
  | (tag, now) :: rest =>
      (if cleanup_runs tag now recentNotifications then 1 else 0)
      + cleanups rest (isDuplicateNotification tag now recentNotifications).2
  end.

(** Clock readings of successive calls: each one is related to the next. *)
Fixpoint chain (R : Z → Z → Prop) (times : list Z) : Prop :=
  match times with
  | t1 :: rest =>
      match rest with
      | t2 :: _ => R t1 t2 ∧ chain R rest
      | [] => True
      end
  | [] => True
  end.

(** A clock that never goes back. *)
Definition nondecreasing (times : list Z) : Prop := chain Z.le times.

(** Readings that are each more than [gap] ms after the one before. *)
Definition spaced (gap : Z) (times : list Z) : Prop :=
  chain (λ t1 t2, (t1 + gap < t2)%Z) times.

(** The record of [key] after [key] was accepted at [t0], when the clock
    last read [tl]: it was written at or after [t0] by a call whose clock
    reading was not [0], or it was swept, which takes more than 4000 ms. *)
Definition fresh_since (key : string) (t0 tl : Z) (m : gmap string Z) : Prop :=
  match m !! key with
  | Some v => (t0 ≤ v)%Z ∧ (v ≤ tl)%Z ∧ v ≠ 0%Z
  | None => (t0 + 4000 < tl)%Z
  end.

(** Every record is at most [u] and its tag is not among [tags]. *)
Definition settled (tags : list (option string)) (u : Z)
    (m : gmap string Z) : Prop :=
  ∀ k ts, m !! k = Some ts → (ts ≤ u)%Z ∧ Some k ∉ tags.

(** The calls of a test run: [n] tags, the decimal numerals of [0] to
    [n - 1], shown 5000 ms apart starting at clock reading [1]. *)
Definition numbered_calls (n : nat) : list call :=
  (λ i : nat, (Some (pretty i), (5000 * Z.of_nat i + 1)%Z)) <$> seq 0 n.

(** *** The two handlers that call [isDuplicateNotification]

    [ipcMain.handle('show-desktop-notification', ...)] and
    [ipcMain.handle('show-notification', ...)] of [setupIPC], up to the
    point where they start to build the notification. *)

(** [`${x}`] for an [x] that is a string or [undefined]. *)
Definition template_text (x : option string) : string :=
  default "undefined" x.

(** [`notification-${title}-${body}-${Date.now()}`]. The clock reading is
    an integer below [10^21] in size, which JavaScript prints in decimal. *)
Definition fallback_tag (title body : option string) (clock : Z) : string :=
  "notification-" ++ template_text title ++ "-" ++ template_text body
    ++ "-" ++ pretty clock.

(** What a handler reads of its argument: the tag ([data.data?.tag] or
    [options.tag]), the title and the body. *)
Record notification := {
  n_tag : option string;
  n_title : option string;
  n_body : option string
}.

(** [const tag = <tag> || `notification-${title}-${body}-${Date.now()}`].
    The clock is read only when the tag of the request is falsy. *)
Definition dedup_tag (n : notification) (clock : Z) : string :=
  match n_tag n with
  | Some key =>
      if bool_decide (key = EmptyString)
      then fallback_tag (n_title n) (n_body n) clock
      else key
  | None => fallback_tag (n_title n) (n_body n) clock
  end.

(** The start of both handlers:
    [if (!Notification.isSupported()) return false;
     const tag = ...;
     if (isDuplicateNotification(tag)) return false;]
    The boolean of the result tells whether the handler goes on to build
    and show the notification. [clock] is the reading used for the
    fallback tag and [now] the one taken by [isDuplicateNotification]. *)
Definition screen_notification (supported : bool) (n : notification)
    (clock now : Z) (recentNotifications : gmap string Z)
    : bool * gmap string Z :=
  if supported then
    let r := isDuplicateNotification (Some (dedup_tag n clock)) now
               recentNotifications in
    (negb r.1, r.2)
  else (false, recentNotifications).

(** The two entry points; they share [recentNotifications]. *)
Inductive api := DesktopNotification | LegacyNotification.

Definition show_desktop_notification := screen_notification.

Definition show_notification := screen_notification.

Definition handler (a : api) :=
  match a with
  | DesktopNotification => show_desktop_notification
  | LegacyNotification => show_notification
  end.

(** *** Calls for one tag among calls for others *)

(** The results of the calls of a sequence that are made for [key]. *)
Fixpoint decisions_for (key : string) (calls : list call)
    (recentNotifications : gmap string Z) : list bool :=
  match calls with
  | [] => []
  | (tag, now) :: rest =>
      let r := isDuplicateNotification tag now recentNotifications in
      if bool_decide (tag = Some key)
      then r.1 :: decisions_for key rest r.2
      else decisions_for key rest r.2
  end.

(** The calls of a sequence that are made for [key]. *)
Definition calls_for (key : string) (calls : list call) : list call :=
  filter (λ c : call, c.1 = Some key) calls.

(** A record that is absent or more than 4000 ms older than [t]. *)
Definition expired (t : Z) (record : option Z) : Prop :=
  match record with
  | Some ts => (ts + 4000 < t)%Z
  | None => True
  end.

(** Two maps that decide alike for [key] from clock reading [t] on. *)
Definition alike_for (key : string) (t : Z) (m1 m2 : gmap string Z) : Prop :=
  m1 !! key = m2 !! key ∨ (expired t (m1 !! key) ∧ expired t (m2 !! key)).


(** ** The cleanup loop is a filter *)

Lemma cleanup_lookup cutoff (m : gmap string Z) key :
  cleanup cutoff m !! key =
  match m !! key with
  | Some ts => if (ts <? cutoff)%Z then None else Some ts
  | None => None
  end.
Proof.
  unfold cleanup.
  cut (∀ b : gmap string Z,
         map_fold (cleanup_step cutoff) b m !! key =
         match m !! key with
         | Some ts => if (ts <? cutoff)%Z then None else b !! key
         | None => b !! key
         end).
  { intros H. rewrite H. destruct (m !! key); done. }
  intros b.
  apply (map_fold_weak_ind
           (λ r (m' : gmap string Z),
              r !! key = match m' !! key with
                         | Some ts => if (ts <? cutoff)%Z then None else b !! key
                         | None => b !! key
                         end)).
  - by rewrite lookup_empty.
  - intros i x m' r Hi IH. unfold cleanup_step.
    destruct (decide (i = key)) as [->|Hne].
    + rewrite lookup_insert_eq. rewrite Hi in IH.
      destruct (x <? cutoff)%Z; [by rewrite lookup_delete_eq | done].
    + rewrite lookup_insert_ne by done.
      destruct (x <? cutoff)%Z; [by rewrite lookup_delete_ne | done].
Qed.

Lemma cleanup_filter cutoff (m : gmap string Z) :
  cleanup cutoff m = filter (λ kv, ¬ (kv.2 < cutoff)%Z) m.
Proof.
  apply map_eq. intros key. rewrite cleanup_lookup.
  destruct (m !! key) as [ts|] eqn:Hk.
  - destruct (Z.ltb_spec ts cutoff) as [Hlt|Hge].
    + symmetry. apply map_lookup_filter_None. right.
      intros x Hx. simpl. rewrite Hk in Hx. injection Hx as <-. lia.
    + symmetry. apply map_lookup_filter_Some. split; [done | simpl; lia].
  - symmetry. apply map_lookup_filter_None. by left.
Qed.

(** ** One call *)

Lemma record_shown_lookup_self key now (m : gmap string Z) :
  record_shown key now m !! key = Some now.
Proof.
  unfold record_shown. destruct (needs_cleanup _).
  - rewrite cleanup_lookup, lookup_insert_eq.
    destruct (Z.ltb_spec now (now - DEDUP_WINDOW_MS * 2)) as [Hlt|_]; [|done].
    unfold DEDUP_WINDOW_MS in Hlt. lia.
  - by rewrite lookup_insert_eq.
Qed.

Lemma record_shown_lookup_other key now (m : gmap string Z) k :
  k ≠ key →
  record_shown key now m !! k =
  if needs_cleanup (<[key := now]> m)
  then match m !! k with
       | Some ts => if (ts <? now - DEDUP_WINDOW_MS * 2)%Z then None else Some ts
       | None => None
       end
  else m !! k.
Proof.
  intros Hne. unfold record_shown. destruct (needs_cleanup _).
  - by rewrite cleanup_lookup, lookup_insert_ne.
  - by rewrite lookup_insert_ne.
Qed.

(** [cleanup_runs] is the condition under which the call reaches the
    loop: the map after the call is then the swept map, and otherwise it is
    the map before the call or the map with the record written. *)
Lemma cleanup_runs_true tag now (m : gmap string Z) :
  cleanup_runs tag now m = true →
  ∃ key, tag = Some key
    ∧ isDuplicateNotification tag now m
      = (false, cleanup (now - DEDUP_WINDOW_MS * 2) (<[key := now]> m)).
Proof.
  destruct tag as [key|]; [|done]. unfold cleanup_runs.
  intros [[Hkey Hw]%andb_true_iff Hneed]%andb_true_iff.
  apply negb_true_iff in Hkey, Hw.
  exists key. split; [done|]. unfold isDuplicateNotification, record_shown.
  by rewrite Hkey, Hw, Hneed.
Qed.

Lemma cleanup_runs_false tag now (m : gmap string Z) :
  cleanup_runs tag now m = false →
  (isDuplicateNotification tag now m).2 = m
  ∨ ∃ key, tag = Some key
      ∧ isDuplicateNotification tag now m = (false, <[key := now]> m).
Proof.
  destruct tag as [key|]; [|by left]. unfold cleanup_runs.
  unfold isDuplicateNotification, record_shown.
  destruct (bool_decide (key = EmptyString)); [by left|].
  destruct (within_window (m !! key) now); [by left|]. simpl.
  intros ->. right. by exists key.
Qed.

(** The three paths of the function, by the conditions the source tests. *)
Lemma isDuplicateNotification_falsy tag now (m : gmap string Z) :
  falsy_tag tag = true → isDuplicateNotification tag now m = (false, m).
Proof.
  destruct tag as [key|]; simpl; [|done].
  intros ->. done.
Qed.

Lemma isDuplicateNotification_suppress key now (m : gmap string Z) :
  key ≠ EmptyString → within_window (m !! key) now = true →
  isDuplicateNotification (Some key) now m = (true, m).
Proof.
  intros Hkey Hw. unfold isDuplicateNotification.
  rewrite bool_decide_eq_false_2 by done. by rewrite Hw.
Qed.

Lemma isDuplicateNotification_accept key now (m : gmap string Z) :
  key ≠ EmptyString → within_window (m !! key) now = false →
  isDuplicateNotification (Some key) now m = (false, record_shown key now m).
Proof.
  intros Hkey Hw. unfold isDuplicateNotification.
  rewrite bool_decide_eq_false_2 by done. by rewrite Hw.
Qed.

Lemma isDuplicateNotification_cases tag now (m : gmap string Z) :
  (falsy_tag tag = true ∧ isDuplicateNotification tag now m = (false, m))
  ∨ (∃ key, tag = Some key ∧ key ≠ EmptyString
       ∧ within_window (m !! key) now = true
       ∧ isDuplicateNotification tag now m = (true, m))
  ∨ (∃ key, tag = Some key ∧ key ≠ EmptyString
       ∧ within_window (m !! key) now = false
       ∧ isDuplicateNotification tag now m = (false, record_shown key now m)).
Proof.
  destruct (falsy_tag tag) eqn:Hf.
  - left. split; [done|]. by apply isDuplicateNotification_falsy.
  - destruct tag as [key|]; [|done]. simpl in Hf.
    apply bool_decide_eq_false in Hf.
    destruct (within_window (m !! key) now) eqn:Hw.
    + right; left. exists key. repeat split; try done.
      by apply isDuplicateNotification_suppress.
    + right; right. exists key. repeat split; try done.
      by apply isDuplicateNotification_accept.
Qed.

(** A stored timestamp other than [0] inside the window is a duplicate. *)
Lemma within_window_nonzero lastShownAt now :
  lastShownAt ≠ 0%Z → (now - lastShownAt < 2000)%Z →
  within_window (Some lastShownAt) now = true.
Proof.
  intros Hnz Hlt. unfold within_window, DEDUP_WINDOW_MS.
  apply andb_true_iff. split.
  - apply negb_true_iff. by apply Z.eqb_neq.
  - by apply Z.ltb_lt.
Qed.

Lemma within_window_elapsed lastShownAt now :
  (now - lastShownAt >= 2000)%Z → within_window (Some lastShownAt) now = false.
Proof.
  intros Hge. unfold within_window, DEDUP_WINDOW_MS.
  apply andb_false_iff. right. apply Z.ltb_ge. lia.
Qed.

(** In a list of entries with pairwise distinct keys, the entries of one
    key are exactly the one that is there. *)
Lemma entries_of_absent_key (l : list (string * Z)) key :
  key ∉ l.*1 → filter (λ kv : string * Z, kv.1 = key) l = [].
Proof.
  induction l as [|[k v] l IH]; intros Hk; [done|].
  rewrite fmap_cons in Hk. apply not_elem_of_cons in Hk as [Hne Hk].
  rewrite filter_cons_False by (simpl; intros ->; by apply Hne).
  by apply IH.
Qed.

Lemma entries_of_key (l : list (string * Z)) key ts :
  NoDup l.*1 → (key, ts) ∈ l →
  filter (λ kv : string * Z, kv.1 = key) l = [(key, ts)].
Proof.
  induction l as [|[k v] l IH]; intros Hnd Hin.
  - by apply elem_of_nil in Hin.
  - rewrite fmap_cons in Hnd. apply NoDup_cons in Hnd as [Hk Hnd].
    apply elem_of_cons in Hin as [Heq|Hin].
    + injection Heq as <- <-. rewrite filter_cons_True by done.
      f_equal. by apply entries_of_absent_key.
    + rewrite filter_cons_False.
      * by apply IH.
      * simpl. intros ->. apply Hk. apply list_elem_of_fmap. by exists (key, ts).
Qed.

Lemma map_entries_of_key (m : gmap string Z) key ts :
  m !! key = Some ts →
  filter (λ kv : string * Z, kv.1 = key) (map_to_list m) = [(key, ts)].
Proof.
  intros Hk. apply entries_of_key.
  - apply NoDup_fst_map_to_list.
  - by apply elem_of_map_to_list.
Qed.

(** What the check of the window does for a stored timestamp other than
    [0]: inside the window the call is a duplicate and the map is left as
    it was. *)
Lemma suppress_within_window_nonzero key now lastShownAt (m : gmap string Z) :
  key ≠ EmptyString → m !! key = Some lastShownAt → lastShownAt ≠ 0%Z →
  (now - lastShownAt < 2000)%Z →
  isDuplicateNotification (Some key) now m = (true, m).
Proof.
  intros Hkey Hk Hnz Hlt. apply isDuplicateNotification_suppress; [done|].
  rewrite Hk. by apply within_window_nonzero.
Qed.

(** For stored timestamps other than [0], the decision is a function of
    the elapsed time alone. *)
Lemma decision_by_elapsed_nonzero key now1 now2 last1 last2
    (m1 m2 : gmap string Z) :
  m1 !! key = Some last1 → m2 !! key = Some last2 →
  last1 ≠ 0%Z → last2 ≠ 0%Z → (now1 - last1 = now2 - last2)%Z →
  (isDuplicateNotification (Some key) now1 m1).1
  = (isDuplicateNotification (Some key) now2 m2).1.
Proof.
  intros H1 H2 Hz1 Hz2 Hel. unfold isDuplicateNotification.
  case_bool_decide; [done|]. rewrite H1, H2. unfold within_window.
  rewrite Hel.
  apply Z.eqb_neq in Hz1, Hz2. rewrite Hz1, Hz2. simpl.
  by destruct (now2 - last2 <? DEDUP_WINDOW_MS)%Z.
Qed.

(** C2. A tag that has a record inside the 2000 ms window should be
    reported as a duplicate and keep its record. The source tests the
    stored timestamp for truthiness, so a record whose timestamp is [0]
    is treated as if there were none: with ["x"] recorded at [0], the call
    at [1000] returns "not a duplicate" and overwrites the record. *)
Theorem zero_record_not_suppressed :
  ({[ "x" := 0%Z ]} : gmap string Z) !! "x" = Some 0%Z
  ∧ (1000 - 0 < 2000)%Z
  ∧ isDuplicateNotification (Some "x") 1000 {[ "x" := 0%Z ]}
    = (false, {[ "x" := 1000%Z ]}).
Proof. repeat split. Qed.

(** C3. For a non-empty tag that has no record, or whose record is at
    least 2000 ms old, the call returns "not a duplicate", and afterwards
    the map holds exactly one record for the tag, with timestamp [now]. *)
Theorem accept_writes_record key now (m : gmap string Z) :
  key ≠ EmptyString →
  (m !! key = None
   ∨ ∃ lastShownAt, m !! key = Some lastShownAt ∧ (now - lastShownAt >= 2000)%Z) →
  (isDuplicateNotification (Some key) now m).1 = false
  ∧ (isDuplicateNotification (Some key) now m).2 !! key = Some now
  ∧ filter (λ kv : string * Z, kv.1 = key)
      (map_to_list (isDuplicateNotification (Some key) now m).2)
    = [(key, now)].
Proof.
  intros Hkey Hrec.
  assert (within_window (m !! key) now = false) as Hw.
  { destruct Hrec as [->|(ts & -> & Hge)]; [done|].
    by apply within_window_elapsed. }
  rewrite (isDuplicateNotification_accept _ _ _ Hkey Hw). simpl.
  pose proof (record_shown_lookup_self key now m) as Hself.
  split; [done|]. split; [done|]. by apply map_entries_of_key.
Qed.

Lemma accept_writes_record_witness :
  "x" ≠ EmptyString
  ∧ (({[ "x" := 1000%Z ]} : gmap string Z) !! "x" = Some 1000%Z
     ∧ (3000 - 1000 >= 2000)%Z)
  ∧ (isDuplicateNotification (Some "x") 3000 {[ "x" := 1000%Z ]}).1 = false
  ∧ (isDuplicateNotification (Some "x") 3000 {[ "x" := 1000%Z ]}).2 !! "x"
    = Some 3000%Z.
Proof.
  assert ("x" ≠ EmptyString) as Hkey by done.
  assert (({[ "x" := 1000%Z ]} : gmap string Z) !! "x" = Some 1000%Z
          ∧ (3000 - 1000 >= 2000)%Z) as Hrec by (split; [reflexivity | lia]).
  destruct (accept_writes_record "x" 3000 {[ "x" := 1000%Z ]} Hkey
              (or_intror (ex_intro _ 1000%Z Hrec))) as (Hres & Hlook & _).
  exact (conj Hkey (conj Hrec (conj Hres Hlook))).
Defined.

(** C4. Whatever the clock reading and the map, a call whose tag is
    [undefined] or the empty string returns "not a duplicate". *)
Theorem absent_tag_never_duplicate now (m : gmap string Z) :
  (isDuplicateNotification None now m).1 = false
  ∧ (isDuplicateNotification (Some EmptyString) now m).1 = false.
Proof. split; reflexivity. Qed.

(** C5. After the tag ["x"] has been accepted at time 1000, a call at 2999
    (1999 ms later) returns "duplicate" and one at 3000 (2000 ms later)
    returns "not a duplicate": the comparison with the window is strict.
    The call at 2999 leaves the map as it was, so the same holds when the
    two calls follow one another. *)
Theorem window_boundary_strict (m m1 : gmap string Z) :
  isDuplicateNotification (Some "x") 1000 m = (false, m1) →
  isDuplicateNotification (Some "x") 2999 m1 = (true, m1)
  ∧ (isDuplicateNotification (Some "x") 3000 m1).1 = false
  ∧ (run [(Some "x", 2999%Z); (Some "x", 3000%Z)] m1).1 = [true; false].
Proof.
  intros Hacc.
  assert (m1 !! "x" = Some 1000%Z) as Hrec.
  { destruct (isDuplicateNotification_cases (Some "x") 1000 m)
      as [[Hf _]|[(key & _ & _ & _ & Hdup)|(key & [= <-] & _ & _ & Heq)]].
    - done.
    - rewrite Hdup in Hacc. done.
    - rewrite Heq in Hacc. injection Hacc as <-.
      apply record_shown_lookup_self. }
  assert (isDuplicateNotification (Some "x") 2999 m1 = (true, m1)) as H2999.
  { apply isDuplicateNotification_suppress; [done|]. by rewrite Hrec. }
  assert ((isDuplicateNotification (Some "x") 3000 m1).1 = false) as H3000.
  { rewrite isDuplicateNotification_accept; [done|done|]. by rewrite Hrec. }
  split; [done|]. split; [done|].
  unfold run. rewrite H2999. cbn [fst snd]. by rewrite H3000.
Qed.

Lemma window_boundary_strict_witness :
  isDuplicateNotification (Some "x") 1000 ∅ = (false, {[ "x" := 1000%Z ]})
  ∧ isDuplicateNotification (Some "x") 2999 {[ "x" := 1000%Z ]}
    = (true, {[ "x" := 1000%Z ]})
  ∧ (isDuplicateNotification (Some "x") 3000 {[ "x" := 1000%Z ]}).1 = false.
Proof.
  assert (isDuplicateNotification (Some "x") 1000 ∅
          = (false, {[ "x" := 1000%Z ]})) as Hacc by reflexivity.
  destruct (window_boundary_strict ∅ {[ "x" := 1000%Z ]} Hacc) as (H1 & H2 & _).
  exact (conj Hacc (conj H1 H2)).
Defined.

(** C6. On a call that accepts a non-empty tag: when the map holds more
    than 100 entries after the write, the cleanup loop runs and the map
    after the call is the written map without the records older than
    [now - 4000], so each of those is gone and every other record is kept;
    when it holds 100 entries or fewer, the loop does not run and the map
    after the call is the written map. *)
Theorem cleanup_over_threshold key now (m m' : gmap string Z) :
  key ≠ EmptyString →
  isDuplicateNotification (Some key) now m = (false, m') →
  ((100 < size (<[key := now]> m))%nat →
     cleanup_runs (Some key) now m = true
     ∧ m' = filter (λ kv, ¬ (kv.2 < now - 4000)%Z) (<[key := now]> m)
     ∧ ∀ k ts, <[key := now]> m !! k = Some ts →
         m' !! k = if decide (ts < now - 4000)%Z then None else Some ts)
  ∧ ((size (<[key := now]> m) ≤ 100)%nat →
     cleanup_runs (Some key) now m = false ∧ m' = <[key := now]> m).
Proof.
  intros Hkey Hcall.
  destruct (isDuplicateNotification_cases (Some key) now m)
    as [[Hf _]|[(k & _ & _ & _ & Hdup)|(k & [= <-] & _ & Hw & Heq)]].
  - simpl in Hf. by apply bool_decide_eq_true in Hf.
  - rewrite Hdup in Hcall. done.
  - rewrite Heq in Hcall. injection Hcall as <-.
    unfold cleanup_runs, record_shown, needs_cleanup, CLEANUP_THRESHOLD.
    rewrite Hw, (bool_decide_eq_false_2 _ Hkey). simpl.
    split; intros Hsize.
    + rewrite bool_decide_eq_true_2 by done.
      change (now - DEDUP_WINDOW_MS * 2)%Z with (now - 4000)%Z.
      split; [done|]. split; [apply cleanup_filter|].
      intros k ts Hk. rewrite cleanup_lookup, Hk.
      destruct (Z.ltb_spec ts (now - 4000)); case_decide; done || lia.
    + rewrite bool_decide_eq_false_2 by lia. done.
Qed.

Lemma cleanup_over_threshold_witness :
  "new" ≠ EmptyString
  ∧ isDuplicateNotification (Some "new") 600000
      (run (numbered_calls 100) ∅).2
    = (false, {[ "new" := 600000%Z ]})
  ∧ (100 < size (<[ "new" := 600000%Z ]> (run (numbered_calls 100) ∅).2))%nat
  ∧ cleanup_runs (Some "new") 600000 (run (numbered_calls 100) ∅).2 = true.
Proof.
  assert ("new" ≠ EmptyString) as Hkey by done.
  assert (isDuplicateNotification (Some "new") 600000
            (run (numbered_calls 100) ∅).2
          = (false, {[ "new" := 600000%Z ]})) as Hacc
    by (vm_compute; reflexivity).
  assert (100 < size (<[ "new" := 600000%Z ]>
                        (run (numbered_calls 100) ∅).2))%nat as Hsize
    by (vm_compute; lia).
  destruct (cleanup_over_threshold "new" 600000 _ _ Hkey Hacc) as [Hlarge _].
  exact (conj Hkey (conj Hacc (conj Hsize (proj1 (Hlarge Hsize))))).
Defined.

(** C7. A call that writes the record of its tag never removes it in its
    own cleanup: after a call that accepted a non-empty tag, the record of
    the tag with timestamp [now] is in the map. *)
Theorem cleanup_keeps_written_record key now (m m' : gmap string Z) :
  key ≠ EmptyString →
  isDuplicateNotification (Some key) now m = (false, m') →
  m' !! key = Some now.
Proof.
  intros Hkey Hcall.
  destruct (isDuplicateNotification_cases (Some key) now m)
    as [[Hf _]|[(k & _ & _ & _ & Hdup)|(k & [= <-] & _ & _ & Heq)]].
  - simpl in Hf. by apply bool_decide_eq_true in Hf.
  - rewrite Hdup in Hcall. done.
  - rewrite Heq in Hcall. injection Hcall as <-.
    apply record_shown_lookup_self.
Qed.

Lemma cleanup_keeps_written_record_witness :
  "x" ≠ EmptyString
  ∧ isDuplicateNotification (Some "x") 3000 {[ "x" := 1000%Z ]}
    = (false, {[ "x" := 3000%Z ]})
  ∧ ({[ "x" := 3000%Z ]} : gmap string Z) !! "x" = Some 3000%Z.
Proof.
  assert ("x" ≠ EmptyString) as Hkey by done.
  assert (isDuplicateNotification (Some "x") 3000 {[ "x" := 1000%Z ]}
          = (false, {[ "x" := 3000%Z ]})) as Hacc by reflexivity.
  exact (conj Hkey (conj Hacc
    (cleanup_keeps_written_record "x" 3000 _ _ Hkey Hacc))).
Defined.

(** C9. The decision should depend on the tag and on the time elapsed
    since its record only. The truthiness test on the stored timestamp
    makes it depend on whether that timestamp is [0]: two calls for ["x"],
    both 500 ms after the record, decide differently. *)
Theorem decision_depends_on_zero_record :
  ({[ "x" := 0%Z ]} : gmap string Z) !! "x" = Some 0%Z
  ∧ ({[ "x" := 1%Z ]} : gmap string Z) !! "x" = Some 1%Z
  ∧ (500 - 0 = 501 - 1)%Z
  ∧ (isDuplicateNotification (Some "x") 500 {[ "x" := 0%Z ]}).1 = false
  ∧ (isDuplicateNotification (Some "x") 501 {[ "x" := 1%Z ]}).1 = true.
Proof. repeat split. Qed.

(** C10. A call that returns "duplicate", and a call whose tag is
    [undefined] or empty, leave the whole map as it was. *)
Theorem duplicate_leaves_map_unchanged tag now (m : gmap string Z) :
  (isDuplicateNotification tag now m).1 = true ∨ falsy_tag tag = true →
  (isDuplicateNotification tag now m).2 = m.
Proof.
  intros Hpath.
  destruct (isDuplicateNotification_cases tag now m)
    as [[_ Heq]|[(k & _ & _ & _ & Heq)|(k & -> & Hk & _ & Heq)]].
  - by rewrite Heq.
  - by rewrite Heq.
  - rewrite Heq in Hpath. destruct Hpath as [Hres|Hf]; [done|].
    simpl in Hf. by apply bool_decide_eq_true in Hf.
Qed.

Lemma duplicate_leaves_map_unchanged_witness :
  (isDuplicateNotification (Some "x") 1500 {[ "x" := 1000%Z ]}).1 = true
  ∧ (isDuplicateNotification (Some "x") 1500 {[ "x" := 1000%Z ]}).2
    = {[ "x" := 1000%Z ]}.
Proof.
  assert ((isDuplicateNotification (Some "x") 1500 {[ "x" := 1000%Z ]}).1
          = true) as Hdup by reflexivity.
  exact (conj Hdup
    (duplicate_leaves_map_unchanged (Some "x") 1500 _ (or_introl Hdup))).
Defined.

(** ** Sequences of calls *)

Lemma chain_cons_inv R t times :
  chain R (t :: times) →
  chain R times ∧ ∀ t', head times = Some t' → R t t'.
Proof.
  destruct times as [|t' rest]; simpl; [done|].
  intros [Hr Hc]. split; [done|]. by intros ? [= <-].
Qed.

Lemma run_cons tag now rest (m : gmap string Z) :
  run ((tag, now) :: rest) m =
  ((isDuplicateNotification tag now m).1
     :: (run rest (isDuplicateNotification tag now m).2).1,
   (run rest (isDuplicateNotification tag now m).2).2).
Proof. reflexivity. Qed.

(** A call at a clock reading other than [0] that is not before the last
    one keeps the record of [key] fresh. *)
Lemma fresh_since_step key t0 tl tag now (m : gmap string Z) :
  fresh_since key t0 tl m → (tl ≤ now)%Z → now ≠ 0%Z → (t0 ≤ tl)%Z →
  fresh_since key t0 now (isDuplicateNotification tag now m).2.
Proof.
  intros Hinv Hle Hnz Ht0.
  assert (fresh_since key t0 now m) as Hsame.
  { unfold fresh_since in *. destruct (m !! key); [|lia].
    destruct Hinv as (? & ? & ?). repeat split; done || lia. }
  destruct (isDuplicateNotification_cases tag now m)
    as [[_ ->]|[(k & _ & _ & _ & ->)|(k & -> & Hk & _ & ->)]]; [done|done|].
  simpl. unfold fresh_since.
  destruct (decide (key = k)) as [->|Hne].
  - rewrite record_shown_lookup_self. repeat split; done || lia.
  - rewrite record_shown_lookup_other by done.
    unfold fresh_since in Hsame.
    destruct (needs_cleanup _); [|done].
    destruct (m !! key) as [v|]; [|done].
    destruct (Z.ltb_spec v (now - DEDUP_WINDOW_MS * 2)) as [Hlt|_]; [|done].
    unfold DEDUP_WINDOW_MS in Hlt. lia.
Qed.

(** Once the record of [key] is fresh since [t0], every later accepted
    call for [key] comes at least a window after [t0]. *)
Lemma fresh_since_accept_later key t0 calls :
  key ≠ EmptyString →
  ∀ (m : gmap string Z) tl j tj,
    fresh_since key t0 tl m → (t0 ≤ tl)%Z →
    nondecreasing (tl :: calls.*2) → Forall (λ c : call, c.2 ≠ 0%Z) calls →
    calls !! j = Some (Some key, tj) → (run calls m).1 !! j = Some false →
    (t0 + 2000 ≤ tj)%Z.
Proof.
  intros Hkey. induction calls as [|[tag now] rest IH];
    intros m tl j tj Hinv Ht0 Hmono Hnz Hj Hres; [done|].
  rewrite fmap_cons in Hmono. simpl in Hmono. destruct Hmono as [Hle Hmono].
  apply Forall_cons in Hnz as [Hnow Hnz]. simpl in Hnow.
  rewrite run_cons in Hres. cbn [fst] in Hres.
  destruct j as [|j]; simpl in Hj.
  - injection Hj as -> ->.
    change (Some (isDuplicateNotification (Some key) tj m).1 = Some false)
      in Hres.
    apply (inj Some) in Hres.
    destruct (isDuplicateNotification_cases (Some key) tj m)
      as [[Hf _]|[(k & _ & _ & _ & Heq)|(k & [= <-] & _ & Hw & _)]].
    + simpl in Hf. by apply bool_decide_eq_true in Hf.
    + rewrite Heq in Hres. done.
    + unfold fresh_since in Hinv. destruct (m !! key) as [v|]; [|lia].
      destruct Hinv as (Hv0 & _ & Hvnz). unfold within_window in Hw.
      apply Z.eqb_neq in Hvnz. rewrite Hvnz in Hw. simpl in Hw.
      apply Z.ltb_ge in Hw. unfold DEDUP_WINDOW_MS in Hw. lia.
  - change ((run rest (isDuplicateNotification tag now m).2).1 !! j
            = Some false) in Hres.
    eapply (IH _ now j tj); try done.
    + by apply (fresh_since_step _ _ tl).
    + lia.
Qed.

(** With a clock that never goes back and never reads [0], two accepted
    calls for the same non-empty tag are at least a window apart, whatever
    other calls come in between and whatever the map held before. *)
Lemma accepted_calls_window_apart key calls :
  key ≠ EmptyString →
  ∀ (m : gmap string Z) i j ti tj,
    nondecreasing calls.*2 → Forall (λ c : call, c.2 ≠ 0%Z) calls →
    (i < j)%nat →
    calls !! i = Some (Some key, ti) → calls !! j = Some (Some key, tj) →
    (run calls m).1 !! i = Some false → (run calls m).1 !! j = Some false →
    (ti + 2000 ≤ tj)%Z.
Proof.
  intros Hkey. induction calls as [|[tag now] rest IH];
    intros m i j ti tj Hmono Hnz Hij Hi Hj Hri Hrj; [done|].
  rewrite run_cons in Hri, Hrj. cbn [fst] in Hri, Hrj.
  destruct j as [|j]; [lia|]. simpl in Hj.
  change ((run rest (isDuplicateNotification tag now m).2).1 !! j
          = Some false) in Hrj.
  rewrite fmap_cons in Hmono. simpl in Hmono.
  apply Forall_cons in Hnz as [Hnow Hnz]. simpl in Hnow.
  destruct i as [|i]; simpl in Hi.
  - injection Hi as -> ->.
    change (Some (isDuplicateNotification (Some key) ti m).1 = Some false)
      in Hri.
    apply (inj Some) in Hri.
    eapply (fresh_since_accept_later key ti rest Hkey _ ti j tj);
      try done.
    destruct (isDuplicateNotification_cases (Some key) ti m)
      as [[Hf _]|[(k & _ & _ & _ & Heq)|(k & [= <-] & _ & _ & Heq)]].
    + simpl in Hf. by apply bool_decide_eq_true in Hf.
    + rewrite Heq in Hri. done.
    + rewrite Heq. simpl. unfold fresh_since.
      rewrite record_shown_lookup_self. repeat split; done || lia.
  - change ((run rest (isDuplicateNotification tag now m).2).1 !! i
            = Some false) in Hri.
    apply chain_cons_inv in Hmono as [Hmono _].
    eapply (IH _ i j ti tj); try done. lia.
Qed.

(** C1. With a clock that never goes back, two calls for one non-empty
    tag that both return "not a duplicate" should be at least 2000 ms
    apart. That holds as long as the clock never reads [0] (see
    [accepted_calls_window_apart]); a record written at clock reading [0]
    is falsy, so the calls for ["x"] at [0] and at [1000] are both
    accepted, 1000 ms apart. *)
Theorem zero_clock_accepts_twice :
  nondecreasing [0; 1000]%Z
  ∧ (run [(Some "x", 0%Z); (Some "x", 1000%Z)] ∅).1 = [false; false]
  ∧ (1000 - 0 < 2000)%Z.
Proof. repeat split. simpl. lia. Qed.

(** *** Distinct tags at widely spaced clock readings *)

Lemma cleanup_runs_falsy tag now (m : gmap string Z) :
  falsy_tag tag = true → cleanup_runs tag now m = false.
Proof.
  destruct tag as [key|]; simpl; [|done]. by intros ->.
Qed.

Lemma cleanup_runs_accept key now (m : gmap string Z) :
  key ≠ EmptyString → within_window (m !! key) now = false →
  cleanup_runs (Some key) now m = needs_cleanup (<[key := now]> m).
Proof.
  intros Hkey Hw. unfold cleanup_runs.
  by rewrite Hw, (bool_decide_eq_false_2 _ Hkey).
Qed.

Lemma settled_weaken tag tags u now (m : gmap string Z) :
  settled (tag :: tags) u m → (u ≤ now)%Z → settled tags now m.
Proof.
  intros Hset Hle k ts Hk. destruct (Hset k ts Hk) as [Hts Hnin].
  split; [lia|]. by apply not_elem_of_cons in Hnin as [_ ?].
Qed.

Lemma settled_insert key tags u now (m : gmap string Z) :
  settled (Some key :: tags) u m → (u ≤ now)%Z → Some key ∉ tags →
  settled tags now (<[key := now]> m).
Proof.
  intros Hset Hle Hfresh k ts Hk.
  apply lookup_insert_Some in Hk as [[<- <-]|[_ Hk]]; [done|].
  by apply (settled_weaken (Some key) tags u now m).
Qed.

(** When every other record is more than 4000 ms old, the cleanup leaves
    the record just written and nothing else. *)
Lemma cleanup_leaves_written key tags u now (m : gmap string Z) :
  settled tags u m → (u + 4000 < now)%Z →
  cleanup (now - DEDUP_WINDOW_MS * 2) (<[key := now]> m) = {[ key := now ]}.
Proof.
  intros Hset Hgap. apply map_eq. intros k. rewrite cleanup_lookup.
  unfold DEDUP_WINDOW_MS.
  destruct (decide (k = key)) as [->|Hne].
  - rewrite lookup_insert_eq, lookup_singleton_eq.
    destruct (Z.ltb_spec now (now - 2000 * 2)); [lia|done].
  - rewrite lookup_insert_ne, lookup_singleton_ne by done.
    destruct (m !! k) as [ts|] eqn:Hk; [|done].
    destruct (Hset k ts Hk) as [Hts _].
    destruct (Z.ltb_spec ts (now - 2000 * 2)); [done|lia].
Qed.

Lemma run_spaced_distinct calls :
  ∀ (m : gmap string Z) u,
    NoDup calls.*1 → spaced 4000 (u :: calls.*2) →
    settled calls.*1 u m → (size m ≤ 100)%nat →
    (size (run calls m).2 ≤ 100)%nat
    ∧ (cleanups calls m = 0%nat →
       size (run calls m).2
       = (size m + length (filter (λ c : call, falsy_tag c.1 = false) calls))%nat).
Proof.
  induction calls as [|[tag now] rest IH]; intros m u Hnd Hsp Hset Hsize.
  { split; [done|]. intros _. rewrite filter_nil. simpl. lia. }
  rewrite fmap_cons in Hnd. rewrite fmap_cons in Hsp. rewrite fmap_cons in Hset.
  simpl in Hnd, Hsp, Hset.
  apply NoDup_cons in Hnd as [Hfresh Hnd]. destruct Hsp as [Hgap Hsp].
  rewrite run_cons. cbn [snd cleanups].
  destruct (isDuplicateNotification_cases tag now m)
    as [[Hf Heq]|[(k & -> & _ & Hw & _)|(k & -> & Hk & Hw & Heq)]].
  - rewrite Heq, (cleanup_runs_falsy _ _ _ Hf). cbn [snd].
    rewrite filter_cons_False by (simpl; congruence).
    apply (IH m now); try done.
    apply (settled_weaken tag _ u); [done|lia].
  - destruct (m !! k) as [ts|] eqn:Hmk; [|done].
    destruct (Hset k ts Hmk) as [_ Hnin]. exfalso. apply Hnin. by left.
  - assert (m !! k = None) as Hnone.
    { destruct (m !! k) as [ts|] eqn:Hmk; [|done].
      destruct (Hset k ts Hmk) as [_ Hnin]. exfalso. apply Hnin. by left. }
    rewrite Heq, (cleanup_runs_accept _ _ _ Hk Hw). cbn [snd].
    rewrite filter_cons_True by (simpl; by apply bool_decide_eq_false_2).
    unfold record_shown.
    pose proof (map_size_insert_None k now m Hnone) as Hwritten.
    destruct (needs_cleanup (<[k := now]> m)) eqn:Hneed.
    + rewrite (cleanup_leaves_written k _ u now m Hset Hgap).
      split; [|done].
      apply (IH {[ k := now ]} now); try done.
      * intros k' ts Hk'. apply lookup_singleton_Some in Hk' as [<- <-]. done.
      * rewrite map_size_singleton. lia.
    + apply bool_decide_eq_false in Hneed. unfold CLEANUP_THRESHOLD in Hneed.
      destruct (IH (<[k := now]> m) now) as [Hle Hcount]; try done.
      * apply (settled_insert k _ u); [done|lia|done].
      * lia.
      * split; [done|]. intros Hno. rewrite Hcount by done.
        rewrite Hwritten. cbn [length]. lia.
Qed.

(** Among pairwise distinct tags at most two are falsy: [undefined] and
    the empty string. *)
Lemma falsy_tags_length (tags : list (option string)) :
  NoDup tags → (length (filter (λ t, falsy_tag t = true) tags) ≤ 2)%nat.
Proof.
  intros Hnd.
  change 2%nat with (length [None; Some EmptyString]).
  apply submseteq_length, NoDup_submseteq; [by apply NoDup_filter|].
  intros [key|] [Hf _]%list_elem_of_filter; [|by left].
  simpl in Hf. apply bool_decide_eq_true in Hf as ->. right; by left.
Qed.

Lemma truthy_calls_length (calls : list call) :
  length calls
  = (length (filter (λ c : call, falsy_tag c.1 = false) calls)
     + length (filter (λ t, falsy_tag t = true) calls.*1))%nat.
Proof.
  induction calls as [|[tag now] rest IH]; [done|].
  rewrite fmap_cons. cbn [fst length]. rewrite IH.
  destruct (falsy_tag tag) eqn:Hf.
  - rewrite filter_cons_False by (simpl; congruence).
    rewrite (filter_cons_True (λ t, falsy_tag t = true)) by done.
    cbn [length]. lia.
  - rewrite filter_cons_True by done.
    rewrite (filter_cons_False (λ t, falsy_tag t = true)) by congruence.
    cbn [length]. lia.
Qed.

(** C8. Starting from the empty map, 150 calls with pairwise distinct
    tags, each more than 4000 ms after the one before, run the cleanup
    loop at least once, and fewer than 150 records are in the map after
    the last call. *)
Theorem bounded_memory (calls : list call) :
  length calls = 150%nat → NoDup calls.*1 → spaced 4000 calls.*2 →
  (1 ≤ cleanups calls ∅)%nat ∧ (size (run calls ∅).2 < 150)%nat.
Proof.
  intros Hlen Hnd Hsp.
  assert (∃ u, spaced 4000 (u :: calls.*2)) as [u Hu].
  { destruct calls as [|[tag now] rest]; [done|].
    exists (now - 4001)%Z. rewrite fmap_cons in *. simpl in *.
    split; [lia|done]. }
  destruct (run_spaced_distinct calls ∅ u Hnd Hu) as [Hle Hcount].
  { intros k ts Hk. by rewrite lookup_empty in Hk. }
  { rewrite map_size_empty. lia. }
  split; [|lia].
  destruct (cleanups calls ∅) as [|n]; [|lia].
  specialize (Hcount eq_refl). rewrite map_size_empty in Hcount.
  pose proof (truthy_calls_length calls) as Hsplit.
  pose proof (falsy_tags_length calls.*1 Hnd) as Hfalsy.
  lia.
Qed.

Lemma bounded_memory_witness :
  length (numbered_calls 150) = 150%nat
  ∧ NoDup (numbered_calls 150).*1
  ∧ spaced 4000 (numbered_calls 150).*2
  ∧ (1 ≤ cleanups (numbered_calls 150) ∅)%nat
  ∧ (size (run (numbered_calls 150) ∅).2 < 150)%nat.
Proof.
  assert (length (numbered_calls 150) = 150%nat) as Hlen by reflexivity.
  assert (NoDup (numbered_calls 150).*1) as Hnd
    by (apply (bool_decide_unpack _); vm_compute; exact I).
  assert (spaced 4000 (numbered_calls 150).*2) as Hsp
    by (vm_compute; repeat split).
  exact (conj Hlen (conj Hnd (conj Hsp
    (bounded_memory (numbered_calls 150) Hlen Hnd Hsp)))).
Defined.

(** ** The handlers *)

Lemma string_app_assoc (a b c : string) : (a ++ b) ++ c = a ++ (b ++ c).
Proof.
  induction a as [|x a IH]; [done|].
  change (String x ((a ++ b) ++ c) = String x (a ++ (b ++ c))).
  by rewrite IH.
Qed.

Lemma fallback_tag_nonempty title body clock :
  fallback_tag title body clock ≠ EmptyString.
Proof. done. Qed.

Lemma dedup_tag_nonempty n clock : dedup_tag n clock ≠ EmptyString.
Proof.
  unfold dedup_tag. destruct (n_tag n) as [key|]; [|done].
  by case_bool_decide.
Qed.

Lemma dedup_tag_explicit n key clock :
  n_tag n = Some key → key ≠ EmptyString → dedup_tag n clock = key.
Proof.
  intros Htag Hkey. unfold dedup_tag. rewrite Htag.
  by rewrite bool_decide_eq_false_2.
Qed.

Lemma dedup_tag_fallback n clock :
  falsy_tag (n_tag n) = true →
  dedup_tag n clock = fallback_tag (n_title n) (n_body n) clock.
Proof.
  unfold dedup_tag, falsy_tag. destruct (n_tag n) as [key|]; [|done].
  by intros ->.
Qed.

Lemma handler_unfold a supported n clock now (m : gmap string Z) :
  handler a supported n clock now m = screen_notification supported n clock now m.
Proof. by destruct a. Qed.

(** A notification shown under [key] at a clock reading other than [0]
    decides the next request for [key]: it is shown exactly when the
    window has passed. *)
Lemma screen_after_shown n1 n2 c1 c2 t1 t2 (m m1 : gmap string Z) :
  dedup_tag n2 c2 = dedup_tag n1 c1 →
  screen_notification true n1 c1 t1 m = (true, m1) → t1 ≠ 0%Z →
  (screen_notification true n2 c2 t2 m1).1 = bool_decide (2000 ≤ t2 - t1)%Z
  ∧ ((t2 - t1 < 2000)%Z → (screen_notification true n2 c2 t2 m1).2 = m1).
Proof.
  intros Htag Hshown Hnz. unfold screen_notification in *.
  rewrite Htag. set (key := dedup_tag n1 c1) in *.
  assert (key ≠ EmptyString) as Hkey by apply dedup_tag_nonempty.
  assert (m1 !! key = Some t1) as Hrec.
  { destruct (isDuplicateNotification_cases (Some key) t1 m)
      as [[Hf _]|[(k & _ & _ & _ & Heq)|(k & [= <-] & _ & _ & Heq)]].
    - simpl in Hf. by apply bool_decide_eq_true in Hf.
    - rewrite Heq in Hshown. done.
    - rewrite Heq in Hshown. injection Hshown as <-.
      apply record_shown_lookup_self. }
  destruct (decide (t2 - t1 < 2000)%Z) as [Hlt|Hge].
  - rewrite (suppress_within_window_nonzero key t2 t1 m1) by done.
    rewrite bool_decide_eq_false_2 by lia. done.
  - rewrite isDuplicateNotification_accept; [|done|].
    + rewrite bool_decide_eq_true_2 by lia. split; [done|lia].
    + rewrite Hrec. apply within_window_elapsed. lia.
Qed.

(** X8. Both handlers record what they show: when a handler goes on to
    show a notification, the platform supports notifications and the map
    afterwards holds the tag of the request, the fallback tag for a
    request without one, with the clock reading of the call; when it
    does not, the map is left as it was. *)
Theorem shown_notification_recorded a supported n clock now
    (m : gmap string Z) :
  ((handler a supported n clock now m).1 = true →
     supported = true
     ∧ (handler a supported n clock now m).2 !! dedup_tag n clock = Some now)
  ∧ ((handler a supported n clock now m).1 = false →
     (handler a supported n clock now m).2 = m).
Proof.
  rewrite handler_unfold. unfold screen_notification.
  destruct supported; [|by split].
  pose proof (dedup_tag_nonempty n clock) as Hkey.
  destruct (isDuplicateNotification_cases (Some (dedup_tag n clock)) now m)
    as [[Hf _]|[(k & _ & _ & _ & ->)|(k & [= <-] & _ & _ & ->)]].
  - simpl in Hf. by apply bool_decide_eq_true in Hf.
  - by split.
  - simpl. split; [|done]. intros _. split; [done|].
    apply record_shown_lookup_self.
Qed.

(** X9. A tag shown through either handler suppresses the same tag on
    both: after a request with a non-empty tag was shown at a clock
    reading [t1] other than [0], the next request with that tag, through
    the same or the other handler and whatever its title and body, is
    shown exactly when [t2 - t1] is at least 2000, and a suppressed
    request leaves the map as it was. *)
Theorem cross_api_duplicate_suppressed a1 a2 n1 n2 key c1 c2 t1 t2
    (m m1 : gmap string Z) :
  n_tag n1 = Some key → n_tag n2 = Some key → key ≠ EmptyString →
  handler a1 true n1 c1 t1 m = (true, m1) → t1 ≠ 0%Z →
  (handler a2 true n2 c2 t2 m1).1 = bool_decide (2000 ≤ t2 - t1)%Z
  ∧ ((t2 - t1 < 2000)%Z → (handler a2 true n2 c2 t2 m1).2 = m1).
Proof.
  intros Htag1 Htag2 Hkey Hshown Hnz. rewrite handler_unfold in *.
  apply (screen_after_shown n1 n2 c1 c2 t1 t2 m m1); [|done..].
  by rewrite (dedup_tag_explicit n1 key), (dedup_tag_explicit n2 key).
Qed.

Lemma cross_api_duplicate_suppressed_witness :
  handler DesktopNotification true
    {| n_tag := Some "task-7"; n_title := Some "Task"; n_body := None |}
    0 1000 ∅
  = (true, {[ "task-7" := 1000%Z ]})
  ∧ handler LegacyNotification true
      {| n_tag := Some "task-7"; n_title := Some "Task"; n_body := None |}
      0 1500 {[ "task-7" := 1000%Z ]}
    = (false, {[ "task-7" := 1000%Z ]}).
Proof.
  assert (handler DesktopNotification true
            {| n_tag := Some "task-7"; n_title := Some "Task"; n_body := None |}
            0 1000 ∅
          = (true, {[ "task-7" := 1000%Z ]})) as Hshown by reflexivity.
  split; [exact Hshown|].
  destruct (cross_api_duplicate_suppressed
              DesktopNotification LegacyNotification
              {| n_tag := Some "task-7"; n_title := Some "Task"; n_body := None |}
              {| n_tag := Some "task-7"; n_title := Some "Task"; n_body := None |}
              "task-7" 0 0 1000 1500 ∅ _ eq_refl eq_refl
              ltac:(done) Hshown ltac:(done)) as [Hres Hmap].
  apply injective_projections; [exact Hres|].
  apply Hmap. simpl. lia.
Defined.

Lemma fallback_tag_clock_inj title body c1 c2 :
  fallback_tag title body c1 = fallback_tag title body c2 → c1 = c2.
Proof.
  unfold fallback_tag. intros Heq.
  do 5 apply (inj (String.app _)) in Heq.
  by apply (inj pretty) in Heq.
Qed.

(** X10. Requests without a tag that have the same title and body share
    their fallback tag exactly when it is made at the same clock reading.
    After such a request was shown at a clock reading [t1] other than
    [0], a second one less than 2000 ms later is suppressed when both
    fallback tags were made in the same millisecond, and it is shown when
    they were not, unless the map already held its tag. *)
Theorem untagged_suppressed_in_same_millisecond a1 a2 n1 n2 c1 c2 t1 t2
    (m m1 : gmap string Z) :
  falsy_tag (n_tag n1) = true → falsy_tag (n_tag n2) = true →
  n_title n1 = n_title n2 → n_body n1 = n_body n2 →
  handler a1 true n1 c1 t1 m = (true, m1) → t1 ≠ 0%Z → (t2 - t1 < 2000)%Z →
  (c1 ≠ c2 → m !! dedup_tag n2 c2 = None) →
  (dedup_tag n1 c1 = dedup_tag n2 c2 ↔ c1 = c2)
  ∧ (handler a2 true n2 c2 t2 m1).1 = bool_decide (c1 ≠ c2).
Proof.
  intros Hf1 Hf2 Htitle Hbody Hshown Hnz Hlt Hnew.
  rewrite !handler_unfold in *.
  rewrite (dedup_tag_fallback n1 c1 Hf1), (dedup_tag_fallback n2 c2 Hf2) in *.
  rewrite <- Htitle, <- Hbody in *.
  split.
  { split; [apply fallback_tag_clock_inj | by intros ->]. }
  destruct (decide (c1 = c2)) as [<-|Hne].
  - rewrite bool_decide_eq_false_2 by tauto.
    destruct (screen_after_shown n1 n2 c1 c1 t1 t2 m m1) as [Hres _];
      [|done..|].
    + by rewrite (dedup_tag_fallback n1 c1 Hf1), (dedup_tag_fallback n2 c1 Hf2),
        Htitle, Hbody.
    + rewrite Hres. apply bool_decide_eq_false_2. lia.
  - rewrite bool_decide_eq_true_2 by done.
    assert (m1 !! fallback_tag (n_title n1) (n_body n1) c2 = None) as Hrec.
    { unfold screen_notification in Hshown.
      rewrite (dedup_tag_fallback n1 c1 Hf1) in Hshown.
      destruct (isDuplicateNotification_cases
                  (Some (fallback_tag (n_title n1) (n_body n1) c1)) t1 m)
        as [[Hf _]|[(k & _ & _ & _ & Heq)|(k & [= <-] & _ & _ & Heq)]].
      - done.
      - rewrite Heq in Hshown. done.
      - rewrite Heq in Hshown. injection Hshown as <-.
        rewrite record_shown_lookup_other
          by (intros Heq'; by apply fallback_tag_clock_inj in Heq').
        rewrite (Hnew Hne). by destruct (needs_cleanup _). }
    unfold screen_notification.
    rewrite (dedup_tag_fallback n2 c2 Hf2), <- Htitle, <- Hbody.
    rewrite isDuplicateNotification_accept; [done|done|by rewrite Hrec].
Qed.

Lemma untagged_suppressed_in_same_millisecond_witness :
  handler DesktopNotification true
    {| n_tag := None; n_title := Some "Build"; n_body := Some "done" |}
    1000 1000 ∅
  = (true, {[ "notification-Build-done-1000" := 1000%Z ]})
  ∧ (handler LegacyNotification true
       {| n_tag := Some EmptyString; n_title := Some "Build";
          n_body := Some "done" |}
       1000 1001 {[ "notification-Build-done-1000" := 1000%Z ]}).1
    = false.
Proof.
  assert (handler DesktopNotification true
            {| n_tag := None; n_title := Some "Build"; n_body := Some "done" |}
            1000 1000 ∅
          = (true, {[ "notification-Build-done-1000" := 1000%Z ]}))
    as Hshown by reflexivity.
  split; [exact Hshown|].
  exact (proj2 (untagged_suppressed_in_same_millisecond
    DesktopNotification LegacyNotification
    {| n_tag := None; n_title := Some "Build"; n_body := Some "done" |}
    {| n_tag := Some EmptyString; n_title := Some "Build";
       n_body := Some "done" |}
    1000 1000 1000 1001 ∅ _ eq_refl eq_refl eq_refl eq_refl Hshown
    ltac:(done) ltac:(simpl; lia) (λ H, False_ind _ (H eq_refl)))).
Defined.

(** X11. The fallback tag does not tell the title from the body: a hyphen
    can belong to either, so two requests without a tag whose titles and
    bodies differ can have the same fallback tag, and then fall under the
    same record. *)
Theorem fallback_tag_hyphen_ambiguous a b c clock :
  fallback_tag (Some (a ++ "-" ++ b)) (Some c) clock
  = fallback_tag (Some a) (Some (b ++ "-" ++ c)) clock.
Proof.
  change ("notification-" ++ (a ++ "-" ++ b) ++ "-" ++ c ++ "-" ++ pretty clock
          = "notification-" ++ a ++ "-" ++ (b ++ "-" ++ c) ++ "-"
              ++ pretty clock).
  rewrite (string_app_assoc a), (string_app_assoc "-" b).
  by rewrite (string_app_assoc b), (string_app_assoc "-" c).
Qed.

(** ** Calls for other tags do not change the decisions for a tag *)

Lemma expired_later t t' record :
  expired t record → (t ≤ t')%Z → expired t' record.
Proof. destruct record as [ts|]; simpl; [lia|done]. Qed.

Lemma expired_not_within_window t now record :
  expired t record → (t ≤ now)%Z → within_window record now = false.
Proof.
  destruct record as [ts|]; simpl; [|done]. intros Hexp Hle.
  apply andb_false_iff. right. apply Z.ltb_ge. unfold DEDUP_WINDOW_MS. lia.
Qed.

Lemma alike_for_later key t t' (m1 m2 : gmap string Z) :
  alike_for key t m1 m2 → (t ≤ t')%Z → alike_for key t' m1 m2.
Proof.
  intros [Heq|[H1 H2]] Hle; [by left|].
  right. split; by eapply expired_later.
Qed.

(** A call for another tag changes the record of [key] only by sweeping
    it, which leaves it expired. *)
Lemma other_call_record key tag now (m : gmap string Z) :
  tag ≠ Some key →
  (isDuplicateNotification tag now m).2 !! key = m !! key
  ∨ ((isDuplicateNotification tag now m).2 !! key = None
     ∧ expired now (m !! key)).
Proof.
  intros Hother.
  destruct (isDuplicateNotification_cases tag now m)
    as [[_ ->]|[(k & _ & _ & _ & ->)|(k & -> & _ & _ & ->)]];
    [by left|by left|].
  simpl. rewrite record_shown_lookup_other by congruence.
  destruct (needs_cleanup _); [|by left].
  destruct (m !! key) as [ts|]; [|by left].
  destruct (Z.ltb_spec ts (now - DEDUP_WINDOW_MS * 2)) as [Hlt|_]; [|by left].
  right. split; [done|]. simpl. unfold DEDUP_WINDOW_MS in Hlt. lia.
Qed.

Lemma alike_for_other_call key tag t now (m1 m2 : gmap string Z) :
  tag ≠ Some key → alike_for key t m1 m2 → (t ≤ now)%Z →
  alike_for key now (isDuplicateNotification tag now m1).2 m2.
Proof.
  intros Hother Halike Hle.
  apply (alike_for_later key t now) in Halike; [|done].
  unfold alike_for in *.
  destruct (other_call_record key tag now m1 Hother) as [->|[-> Hexp]];
    [done|].
  destruct Halike as [Heq|[_ H2]]; right; (split; [done|]).
  - by rewrite <- Heq.
  - done.
Qed.

Lemma alike_for_same_call key t now (m1 m2 : gmap string Z) :
  alike_for key t m1 m2 → (t ≤ now)%Z →
  (isDuplicateNotification (Some key) now m1).1
  = (isDuplicateNotification (Some key) now m2).1
  ∧ alike_for key now (isDuplicateNotification (Some key) now m1).2
      (isDuplicateNotification (Some key) now m2).2.
Proof.
  intros Halike Hle.
  pose proof (alike_for_later key t now m1 m2 Halike Hle) as Hlater.
  unfold isDuplicateNotification. case_bool_decide; [done|].
  assert (within_window (m1 !! key) now = within_window (m2 !! key) now)
    as Hsame.
  { destruct Halike as [->|[H1 H2]]; [done|].
    by rewrite (expired_not_within_window t now _ H1 Hle),
      (expired_not_within_window t now _ H2 Hle). }
  rewrite Hsame. destruct (within_window (m2 !! key) now); [done|].
  simpl. split; [done|]. left. by rewrite !record_shown_lookup_self.
Qed.

Lemma decisions_for_alike key calls :
  ∀ (m1 m2 : gmap string Z) t,
    alike_for key t m1 m2 → nondecreasing (t :: calls.*2) →
    decisions_for key calls m1 = (run (calls_for key calls) m2).1.
Proof.
  induction calls as [|[tag now] rest IH]; intros m1 m2 t Halike Hmono;
    [done|].
  rewrite fmap_cons in Hmono. simpl in Hmono. destruct Hmono as [Hle Hmono].
  unfold calls_for. cbn [decisions_for fst].
  case_bool_decide as Htag.
  - subst tag. rewrite filter_cons_True by done. rewrite run_cons.
    destruct (alike_for_same_call key t now m1 m2 Halike Hle) as [-> Hnext].
    cbn [fst]. f_equal. by apply (IH _ _ now).
  - rewrite filter_cons_False by done.
    apply (IH _ _ now); [|done].
    by apply (alike_for_other_call key tag t).
Qed.

(** X12. With a clock that never goes back, the calls for other tags do
    not change any decision for a tag: the results of the calls for
    [key] in a sequence of calls are the results of those calls made
    alone, from the same map. The cleanup run by a call for another tag
    can remove the record of [key] only when it is more than 4000 ms old,
    and then the next call for [key] is accepted either way. *)
Theorem decisions_independent_of_other_tags key calls (m : gmap string Z) :
  nondecreasing calls.*2 →
  decisions_for key calls m = (run (calls_for key calls) m).1.
Proof.
  intros Hmono.
  assert (∃ t, nondecreasing (t :: calls.*2)) as [t Ht].
  { destruct calls as [|[tag now] rest]; [by exists 0%Z|].
    exists now. rewrite fmap_cons in *. simpl in *. split; [lia|done]. }
  apply (decisions_for_alike key calls m m t); [by left|done].
Qed.

Lemma decisions_independent_of_other_tags_witness :
  nondecreasing
    [ (Some "a", 1000%Z); (Some "b", 1500%Z); (Some "a", 2000%Z);
      (None, 2500%Z); (Some "a", 3000%Z) ].*2
  ∧ decisions_for "a"
      [ (Some "a", 1000%Z); (Some "b", 1500%Z); (Some "a", 2000%Z);
        (None, 2500%Z); (Some "a", 3000%Z) ] ∅
    = [false; true; false].
Proof.
  assert (nondecreasing
            [ (Some "a", 1000%Z); (Some "b", 1500%Z); (Some "a", 2000%Z);
              (None, 2500%Z); (Some "a", 3000%Z) ].*2) as Hmono
    by (vm_compute; repeat split; discriminate).
  exact (conj Hmono
    (decisions_independent_of_other_tags "a" _ ∅ Hmono)).
Defined.

(** ** How large the map grows *)




End Dedup.

(** * Properties of the configuration *)

Module ShellProps.

Import Shell.

Local Open Scope string_scope.

(** ** Strings *)

Lemma append_assoc (a b c : string) : (a ++ b) ++ c = a ++ (b ++ c).
Proof.
  induction a as [|x a IH]; [done|].
  change (String x ((a ++ b) ++ c) = String x (a ++ (b ++ c))).
  by rewrite IH.
Qed.

Lemma slice_last_append a x b :
  slice_last (a ++ String x b) = slice_last (String x b).
Proof.
  induction a as [|y a IH]; [done|].
  change (String y a ++ String x b) with (String y (a ++ String x b)).
  destruct a as [|z a]; [done|]. exact IH.
Qed.

Lemma endsWith_slash_append a : endsWith_slash (a ++ "/") = true.
Proof. unfold endsWith_slash. by rewrite slice_last_append. Qed.

Lemma slice_off_last_slice_last s : slice_off_last s ++ slice_last s = s.
Proof.
  induction s as [|x s IH]; [done|].
  destruct s as [|y s]; [done|].
  change (String x (slice_off_last (String y s) ++ slice_last (String y s))
          = String x (String y s)).
  by rewrite IH.
Qed.

Lemma endsWith_slash_inv s :
  endsWith_slash s = true → slice_off_last s ++ "/" = s.
Proof.
  intros Hs. apply bool_decide_eq_true in Hs. rewrite <- Hs.
  apply slice_off_last_slice_last.
Qed.

Lemma startsWith_append p r : startsWith p (p ++ r) = true.
Proof.
  unfold startsWith. induction p as [|a p IH].
  - by destruct r.
  - change (String a p ++ r) with (String a (p ++ r)). simpl.
    by destruct (Ascii.ascii_dec a a).
Qed.

Lemma strip_scheme_http host : strip_scheme ("http://" ++ host) = host.
Proof.
  unfold strip_scheme.
  replace (startsWith "https://" ("http://" ++ host)) with false
    by reflexivity.
  by rewrite startsWith_append.
Qed.

Lemma strip_scheme_https host : strip_scheme ("https://" ++ host) = host.
Proof. unfold strip_scheme. by rewrite startsWith_append. Qed.

Lemma updateUrl_slash s :
  endsWith_slash s = true → updateUrl s = s ++ "desktop/updates".
Proof.
  intros Hs. unfold updateUrl. rewrite Hs.
  change "/desktop/updates" with ("/" ++ "desktop/updates").
  rewrite <- append_assoc. by rewrite (endsWith_slash_inv _ Hs).
Qed.

(** ** The server address *)

Lemma getServerURL_slash trim (env : gmap string string) :
  endsWith_slash (getServerURL trim env) = true.
Proof.
  unfold getServerURL.
  destruct (env_truthy env "ELECTRON_SERVER_URL") as [value|].
  - destruct (endsWith_slash (trim value)) eqn:Hends; [done|].
    apply endsWith_slash_append.
  - destruct (env_truthy env "ELECTRON_SERVER_DOMAIN") as [value|].
    + rewrite <- !append_assoc. apply endsWith_slash_append.
    + rewrite <- !append_assoc. apply endsWith_slash_append.
Qed.

Lemma env_truthy_Some (env : gmap string string) name value :
  env !! name = Some value → value ≠ EmptyString →
  env_truthy env name = Some value.
Proof.
  intros Hget Hne. unfold env_truthy. rewrite Hget.
  by rewrite bool_decide_eq_false_2.
Qed.

(** X1. Whatever the environment holds, the address that [getServerURL]
    returns ends with a slash. *)
Theorem server_url_ends_with_slash trim (env : gmap string string) :
  endsWith_slash (getServerURL trim env) = true.
Proof. apply getServerURL_slash. Qed.

(** X2. The address of the update feed is the server address followed by
    [desktop/updates]: the two are joined by exactly one slash, for every
    environment. *)
Theorem update_url_appends_path trim (env : gmap string string) :
  updateUrl (getServerURL trim env) = getServerURL trim env ++ "desktop/updates".
Proof. apply updateUrl_slash, getServerURL_slash. Qed.

(** X3. A scheme written in [ELECTRON_SERVER_DOMAIN] is discarded: when
    no full address is configured and the trimmed domain starts with
    [http://] or [https://], the address is built from the rest of the
    domain, and its scheme is [ELECTRON_SERVER_PROTOCOL], or [https] when
    that is not set. *)
Theorem domain_scheme_discarded trim (env : gmap string string) value host :
  env_truthy env "ELECTRON_SERVER_URL" = None →
  env_truthy env "ELECTRON_SERVER_DOMAIN" = Some value →
  trim value = "http://" ++ host ∨ trim value = "https://" ++ host →
  getServerURL trim env
  = default "https" (env_truthy env "ELECTRON_SERVER_PROTOCOL")
    ++ "://" ++ host ++ "/".
Proof.
  intros Hurl Hdomain Hscheme. unfold getServerURL.
  rewrite Hurl, Hdomain.
  by destruct Hscheme as [-> | ->];
    rewrite ?strip_scheme_http, ?strip_scheme_https.
Qed.

Lemma domain_scheme_discarded_witness :
  env_truthy {[ "ELECTRON_SERVER_DOMAIN" := " http://task.example.com " ]}
    "ELECTRON_SERVER_URL" = None
  ∧ env_truthy {[ "ELECTRON_SERVER_DOMAIN" := " http://task.example.com " ]}
      "ELECTRON_SERVER_DOMAIN" = Some " http://task.example.com "
  ∧ trim_spaces " http://task.example.com " = "http://" ++ "task.example.com"
  ∧ getServerURL trim_spaces
      {[ "ELECTRON_SERVER_DOMAIN" := " http://task.example.com " ]}
    = "https://task.example.com/".
Proof.
  assert (env_truthy
            {[ "ELECTRON_SERVER_DOMAIN" := " http://task.example.com " ]}
            "ELECTRON_SERVER_URL" = None) as Hurl by reflexivity.
  assert (env_truthy
            {[ "ELECTRON_SERVER_DOMAIN" := " http://task.example.com " ]}
            "ELECTRON_SERVER_DOMAIN" = Some " http://task.example.com ")
    as Hdomain by reflexivity.
  assert (trim_spaces " http://task.example.com "
          = "http://" ++ "task.example.com") as Htrim by reflexivity.
  exact (conj Hurl (conj Hdomain (conj Htrim
    (domain_scheme_discarded trim_spaces _ _ _ Hurl Hdomain
       (or_introl Htrim))))).
Defined.

(** X4. With neither a full address nor a protocol configured, the warning
    that the update feed is not served over HTTPS is given exactly when no
    domain is configured: the address built from a domain is an [https]
    one, the one built from the IP address and the port is not. *)
Theorem updater_warns_without_domain trim (env : gmap string string) :
  env_truthy env "ELECTRON_SERVER_URL" = None →
  env_truthy env "ELECTRON_SERVER_PROTOCOL" = None →
  updater_warns (getServerURL trim env)
  = bool_decide (env_truthy env "ELECTRON_SERVER_DOMAIN" = None).
Proof.
  intros Hurl Hprotocol. unfold updater_warns.
  rewrite (updateUrl_slash _ (getServerURL_slash trim env)).
  unfold getServerURL. rewrite Hurl, Hprotocol.
  destruct (env_truthy env "ELECTRON_SERVER_DOMAIN") as [value|];
    [|reflexivity].
  change (negb (startsWith "https://"
                  ("https://" ++ (strip_scheme (trim value) ++ "/")
                                  ++ "desktop/updates"))
          = bool_decide (Some value = None)).
  by rewrite startsWith_append.
Qed.

Lemma updater_warns_without_domain_witness :
  env_truthy {[ "ELECTRON_SERVER_IP" := "10.0.0.7" ]} "ELECTRON_SERVER_URL"
  = None
  ∧ env_truthy {[ "ELECTRON_SERVER_IP" := "10.0.0.7" ]}
      "ELECTRON_SERVER_PROTOCOL" = None
  ∧ updater_warns
      (getServerURL trim_spaces {[ "ELECTRON_SERVER_IP" := "10.0.0.7" ]})
    = true.
Proof.
  assert (env_truthy {[ "ELECTRON_SERVER_IP" := "10.0.0.7" ]}
            "ELECTRON_SERVER_URL" = None) as Hurl by reflexivity.
  assert (env_truthy {[ "ELECTRON_SERVER_IP" := "10.0.0.7" ]}
            "ELECTRON_SERVER_PROTOCOL" = None) as Hprotocol by reflexivity.
  exact (conj Hurl (conj Hprotocol
    (updater_warns_without_domain trim_spaces _ Hurl Hprotocol))).
Defined.

(** X5. A full address that is set but blank after trimming is still
    taken: the address is then a lone slash, and neither the domain nor
    the IP address and the port are consulted. *)
Theorem blank_server_url trim (env : gmap string string) value :
  env !! "ELECTRON_SERVER_URL" = Some value → value ≠ EmptyString →
  trim value = EmptyString →
  getServerURL trim env = "/".
Proof.
  intros Hget Hne Hblank. unfold getServerURL.
  by rewrite (env_truthy_Some _ _ _ Hget Hne), Hblank.
Qed.

Lemma blank_server_url_witness :
  ({[ "ELECTRON_SERVER_URL" := "  " ]} : gmap string string)
    !! "ELECTRON_SERVER_URL" = Some "  "
  ∧ "  " ≠ EmptyString
  ∧ trim_spaces "  " = EmptyString
  ∧ getServerURL trim_spaces {[ "ELECTRON_SERVER_URL" := "  " ]} = "/".
Proof.
  assert (({[ "ELECTRON_SERVER_URL" := "  " ]} : gmap string string)
            !! "ELECTRON_SERVER_URL" = Some "  ") as Hget by reflexivity.
  assert ("  " ≠ EmptyString) as Hne by done.
  assert (trim_spaces "  " = EmptyString) as Hblank by reflexivity.
  exact (conj Hget (conj Hne (conj Hblank
    (blank_server_url trim_spaces _ _ Hget Hne Hblank)))).
Defined.

(** ** The icon *)

Lemma first_existing_Some existsSync paths iconPath :
  first_existing existsSync paths = Some iconPath ↔
  ∃ i, paths !! i = Some iconPath ∧ existsSync iconPath = true
       ∧ ∀ j other, (j < i)%nat → paths !! j = Some other →
           existsSync other = false.
Proof.
  induction paths as [|p rest IH]; simpl.
  - split; [done|]. by intros (i & Hi & _).
  - destruct (existsSync p) eqn:Hp.
    + split.
      * intros [= <-]. exists 0%nat. repeat split; [done|]. intros; lia.
      * intros ([|i] & Hi & Hex & Hbefore).
        -- by injection Hi as <-.
        -- specialize (Hbefore 0%nat p). simpl in Hbefore.
           rewrite Hbefore in Hp by (done || lia). done.
    + rewrite IH. split.
      * intros (i & Hi & Hex & Hbefore). exists (S i).
        repeat split; [done..|].
        intros [|j] other Hj Hother; simpl in Hother.
        -- by injection Hother as <-.
        -- apply (Hbefore j); [lia|done].
      * intros ([|i] & Hi & Hex & Hbefore); simpl in Hi.
        -- injection Hi as <-. congruence.
        -- exists i. repeat split; [done..|].
           intros j other Hj Hother. apply (Hbefore (S j)); [lia|done].
Qed.

Lemma first_existing_None existsSync paths :
  first_existing existsSync paths = None ↔
  ∀ p, p ∈ paths → existsSync p = false.
Proof.
  induction paths as [|p rest IH]; simpl.
  - split; [|done]. intros _ p Hp. by apply elem_of_nil in Hp.
  - destruct (existsSync p) eqn:Hp.
    + split; [done|]. intros Hall. rewrite Hall in Hp; [done|by left].
    + rewrite IH. split.
      * intros Hall q [->|Hq]%elem_of_cons; [done|by apply Hall].
      * intros Hall q Hq. apply Hall. by right.
Qed.

(** X6. [getIconPath] returns the first candidate that exists, in the
    order [icon.png], [icon.ico], [public/favicon.ico],
    [build/favicon.ico]: the returned path exists and no candidate before
    it does; and it returns [null] exactly when no candidate exists. *)
Theorem icon_path_first_existing existsSync join dirname :
  (∀ iconPath,
     getIconPath existsSync join dirname = Some iconPath ↔
     ∃ i, possiblePaths join dirname !! i = Some iconPath
          ∧ existsSync iconPath = true
          ∧ ∀ j other, (j < i)%nat →
              possiblePaths join dirname !! j = Some other →
              existsSync other = false)
  ∧ (getIconPath existsSync join dirname = None ↔
     ∀ p, p ∈ possiblePaths join dirname → existsSync p = false).
Proof.
  split.
  - intros iconPath. apply first_existing_Some.
  - apply first_existing_None.
Qed.

(** ** The signing hook *)

(** X7. The signing hook returns a certificate exactly when both
    [WIN_CERTIFICATE_FILE] and [WIN_CERTIFICATE_PASSWORD] are set and not
    empty and the resolved certificate file exists; what it returns is
    then that resolved path and that password. In every other case the
    application is left unsigned. *)
Theorem sign_only_with_existing_certificate resolve existsSync
    (env : gmap string string) result :
  sign resolve existsSync env = Some result ↔
  ∃ file password,
    env_truthy env "WIN_CERTIFICATE_FILE" = Some file
    ∧ env_truthy env "WIN_CERTIFICATE_PASSWORD" = Some password
    ∧ existsSync (resolve file) = true
    ∧ result = {| certificateFile := resolve file;
                  certificatePassword := password |}.
Proof.
  unfold sign.
  destruct (env_truthy env "WIN_CERTIFICATE_FILE") as [file|];
    [|split; [done|by intros (? & ? & ? & _)]].
  destruct (env_truthy env "WIN_CERTIFICATE_PASSWORD") as [password|];
    [|split; [done|by intros (? & ? & _ & ? & _)]].
  destruct (existsSync (resolve file)) eqn:Hex.
  - split.
    + intros [= <-]. by exists file, password.
    + intros (f & pw & [= <-] & [= <-] & _ & ->). done.
  - split; [done|]. intros (f & pw & [= <-] & _ & Hex' & _). congruence.
Qed.

End ShellProps.

(** * Properties of the storage handlers *)

Module StorageProps.

Import Storage.

Local Open Scope string_scope.

Lemma js_or_same v : js_or v v = v.
Proof. unfold js_or. by destruct (truthy v). Qed.

Lemma store_set_defined key v (s : gmap string value) :
  v ≠ Scalar SUndefined → store_set key v s = (Some (), <[key := v]> s).
Proof. destruct v as [[]|]; done. Qed.

Lemma truthy_scalar_defined v :
  truthy_scalar v = true → Scalar v ≠ Scalar SUndefined.
Proof. by destruct v. Qed.

(** What [save-token] does to a store that is there. *)
Lemma save_token_Some token (s : gmap string value) :
  save_token token (Some s) =
  if decide (token = Scalar SUndefined) then (Failure Thrown, Some s)
  else (Success, Some (<["accessToken" := token]> (<["token" := token]> s))).
Proof.
  unfold save_token, handle, bind. case_decide as Hundef.
  - by subst token.
  - by rewrite !store_set_defined.
Qed.

(** X14. What [save-token] stores, [get-token] returns: after a
    [save-token] that reported success, [get-token] reports success with
    the very token that was saved, also when that token is falsy, such as
    [null] or the empty string. The save succeeds exactly when the store
    is available and the token is not [undefined]. *)
Theorem token_round_trip token store :
  ((save_token token store).1 = Success ↔
     is_Some store ∧ token ≠ Scalar SUndefined)
  ∧ ((save_token token store).1 = Success →
     (get_token (save_token token store).2).1
     = {| success := true; content := token |}).
Proof.
  destruct store as [s|].
  - rewrite save_token_Some. case_decide as Hundef; simpl.
    + split; [|done]. split; [done|]. by intros [_ ?].
    + split; [by split|]. intros _.
      unfold get_token, handle, bind, store_get. simpl.
      rewrite lookup_insert_ne, !lookup_insert_eq by done. simpl.
      by rewrite js_or_same.
  - simpl. split; [|done]. split; [done|]. by intros [[? [=]] _].
Qed.

Lemma bind_ret {A B} (a : A) (k : A → action B) (s : gmap string value) :
  bind (ret a) k s = k a s.
Proof. done. Qed.

Lemma bind_assoc {A B C} (c : action A) (k1 : A → action B)
    (k2 : B → action C) (s : gmap string value) :
  bind (bind c k1) k2 s = bind c (λ a, bind (k1 a) k2) s.
Proof. unfold bind. by destruct (c s) as [[a|] s']. Qed.

Lemma bind_set {B} key v (k : unit → action B) (s : gmap string value) :
  v ≠ Scalar SUndefined →
  bind (store_set key v) k s = k () (<[key := v]> s).
Proof. intros Hv. unfold bind. by rewrite store_set_defined. Qed.

Lemma save_user_Object o (s : gmap string value) :
  save_user (Object o) (Some s) = (Success, Some (saved_user o s)).
Proof.
  unfold save_user, handle, saved_user. cbn [member].
  destruct (truthy_scalar (o_token o)) eqn:Ht;
    destruct (truthy_scalar (o_workspaceId o)) eqn:Hw;
    destruct (truthy_scalar (o_workspaceSlug o)) eqn:Hs;
    repeat first
      [ rewrite bind_assoc
      | rewrite bind_ret
      | rewrite Ht | rewrite Hw | rewrite Hs
      | progress cbn [when]
      | rewrite bind_set by (done || by apply truthy_scalar_defined) ];
    reflexivity.
Qed.

Lemma saved_user_lookup_user o (s : gmap string value) :
  saved_user o s !! "user" = Some (Object o).
Proof.
  unfold saved_user.
  repeat (case_match; rewrite ?lookup_insert_ne by done);
    by rewrite lookup_insert_eq.
Qed.

Lemma saved_user_lookup_token o (s : gmap string value) :
  saved_user o s !! "token" =
  if truthy_scalar (o_token o) then Some (Scalar (o_token o))
  else s !! "token".
Proof.
  unfold saved_user.
  repeat (case_match; rewrite ?lookup_insert_ne by done);
    by rewrite ?lookup_insert_eq.
Qed.

Lemma saved_user_lookup_accessToken o (s : gmap string value) :
  saved_user o s !! "accessToken" =
  if truthy_scalar (o_token o) then Some (Scalar (o_token o))
  else s !! "accessToken".
Proof.
  unfold saved_user.
  repeat (case_match; rewrite ?lookup_insert_ne by done);
    by rewrite ?lookup_insert_eq.
Qed.

(** What [save-user] does to the store for an argument that is not an
    object. *)
Lemma save_user_Scalar v (s : gmap string value) :
  save_user (Scalar v) (Some s) =
  match v with
  | SUndefined => (Failure Thrown, Some s)
  | SNull => (Failure Thrown, Some (<["user" := Scalar SNull]> s))
  | _ => (Success, Some (<["user" := Scalar v]> s))
  end.
Proof. by destruct v. Qed.

(** X15. [save-user] of an object always succeeds on an available store.
    Afterwards [get-user] returns that object, and [get-token] returns the
    token of the object when it is truthy; when the object has no token,
    or a falsy one, [get-token] answers what it answered before. *)
Theorem save_user_then_get o (s : gmap string value) :
  (save_user (Object o) (Some s)).1 = Success
  ∧ (get_user (save_user (Object o) (Some s)).2).1
    = {| success := true; content := Object o |}
  ∧ (get_token (save_user (Object o) (Some s)).2).1
    = if truthy_scalar (o_token o)
      then {| success := true; content := Scalar (o_token o) |}
      else (get_token (Some s)).1.
Proof.
  rewrite save_user_Object. cbn [fst snd]. split; [done|]. split.
  - unfold get_user, handle, bind, store_get. cbn [fst].
    by rewrite saved_user_lookup_user.
  - unfold get_token, handle, bind, store_get, ret. cbn [fst].
    rewrite saved_user_lookup_token, saved_user_lookup_accessToken.
    destruct (truthy_scalar (o_token o)); [|done].
    simpl. by rewrite js_or_same.
Qed.

(** X16. [save-user] of [null] reports a failure and yet replaces the
    stored user: the user is written before the members of the argument
    are read, so [get-user] afterwards returns [null] whatever user was
    stored before. The token is left as it was. *)
Theorem save_user_null_overwrites (s : gmap string value) :
  (save_user (Scalar SNull) (Some s)).1 = Failure Thrown
  ∧ (get_user (save_user (Scalar SNull) (Some s)).2).1
    = {| success := true; content := Scalar SNull |}
  ∧ (get_token (save_user (Scalar SNull) (Some s)).2).1
    = (get_token (Some s)).1.
Proof.
  rewrite save_user_Scalar. cbn [fst snd]. split; [done|]. split.
  - unfold get_user, handle, bind, store_get. cbn [fst].
    by rewrite lookup_insert_eq.
  - unfold get_token, handle, bind, store_get, ret. cbn [fst].
    by rewrite !lookup_insert_ne.
Qed.

(** ** The two token keys *)

Lemma slots_agree_serve r store :
  slots_agree store → slots_agree (serve r store).
Proof.
  intros Hagree. destruct store as [s|]; [|by destruct r].
  specialize (Hagree s eq_refl).
  destruct r as [token| |userData| |]; unfold serve.
  - rewrite save_token_Some. case_decide; intros s' [= <-]; [done|].
    by rewrite lookup_insert_ne, !lookup_insert_eq.
  - by intros s' [= <-].
  - destruct userData as [v|o].
    + rewrite save_user_Scalar.
      destruct v; intros s' [= <-]; by rewrite ?lookup_insert_ne.
    + rewrite save_user_Object. intros s' [= <-].
      rewrite saved_user_lookup_token, saved_user_lookup_accessToken.
      by destruct (truthy_scalar (o_token o)).
  - by intros s' [= <-].
  - by intros s' [= <-].
Qed.

(** X17. The keys [token] and [accessToken] of the store always hold the
    same value: every handler keeps them equal, so they are equal after
    any sequence of requests on a store where they were, such as a store
    holding only its defaults. *)
Theorem token_slots_agree requests store :
  slots_agree store → slots_agree (serve_all requests store).
Proof.
  revert store. induction requests as [|r rest IH]; intros store Hagree;
    [done|].
  apply IH. by apply slots_agree_serve.
Qed.

Lemma token_slots_agree_witness :
  slots_agree (Some defaults)
  ∧ slots_agree
      (serve_all [SaveToken (Scalar (SStr "t1")); ClearStorage;
                  SaveUser (Scalar SNull)]
         (Some defaults)).
Proof.
  assert (slots_agree (Some defaults)) as Hagree
    by (intros s [= <-]; reflexivity).
  exact (conj Hagree (token_slots_agree _ _ Hagree)).
Defined.

End StorageProps.
